(** * Formation deck codes: a shallow embedding of the Python codec

    The development follows the layout of the repository:
    - [models.py]                     -> [FormationDetailInfo]
    - [converters/bool_converter.py]  -> [Module BoolListBase64Converter]
    - [converters/int_converter.py]   -> [Module IntListBase64Converter]
    - [converters/text_converter.py]  -> [Module TextCompressionUtility]
    - [formation_deck.py]             -> [Module FormationDeckCode]

    Python integers are [Z]; list indices and loop counters are [nat];
    a [bytes] value is a list of [Z] in [0, 255]; a [str] is a [string].
    Python exceptions are values of [result]: a function that can raise
    returns [Raise e], and [try ... except Exception] is [try_except].
    The one reading of the clock, by [gzip.GzipFile] when it writes a
    stream, is an explicit argument [now] of [compress] and of [encode].
    Diagnostic [print] calls on the failure paths are not modelled. *)

From Stdlib Require Import ZArith List String Ascii Lia Bool ZifyNat.
From stdpp Require Import gmap strings list sorting.
Import ListNotations.

Local Open Scope Z_scope.

(** ** Python exceptions *)

Inductive exn : Type :=
| ValueError      (* raise ValueError(...) *)
| StructError     (* struct.error *)
| BinasciiError   (* binascii.Error, from base64.b64decode *)
| GzipError       (* gzip.BadGzipFile, EOFError, zlib.error *)
| UnicodeError.   (* UnicodeDecodeError, UnicodeEncodeError *)

Inductive result (A : Type) : Type :=
| Ok (a : A)
| Raise (e : exn).
Arguments Ok {A} a.
Arguments Raise {A} e.

#[global] Instance result_ret : MRet result := fun A a => Ok a.
#[global] Instance result_bind : MBind result :=
  fun A B f m => match m with Ok a => f a | Raise e => Raise e end.

(** [try: body except Exception as e: handler e] *)
Definition try_except {A} (body : result A) (handler : exn -> result A) : result A :=
  match body with
  | Ok a => Ok a
  | Raise e => handler e
  end.

(** Truthiness of a [str] and of a list ([if not s], [if not l]). *)
Definition str_empty (s : string) : bool :=
  match s with EmptyString => true | String _ _ => false end.

Definition list_empty {A} (l : list A) : bool :=
  match l with [] => true | _ :: _ => false end.

(** ** models.py *)

Record FormationDetailInfo : Type := {
  slot : Z;
  personality_id : Z;
  ego1 : Z;
  ego2 : Z;
  ego3 : Z;
  ego4 : Z;
  ego5 : Z;
  enabled : bool;
  slot_type : Z
}.

(** ** The imported library codecs

    [base64], [gzip] and the UTF-8 codec are Python standard-library code,
    not code of this repository.  The embedding is parametric in them. *)

Definition is_byte (b : Z) : Prop := 0 <= b < 256.

Class Codecs : Type := {
  (* base64.b64encode(b).decode('ascii') *)
  b64encode : list Z -> string;
  (* base64.b64decode(s) *)
  b64decode : string -> result (list Z);
  (* the bytes written through gzip.GzipFile(mode='wb') when time.time()
     reads [now]: the header of the stream stores that time *)
  gzip_write : Z -> list Z -> list Z;
  (* gzip.GzipFile(mode='rb').read() *)
  gzip_read : list Z -> result (list Z);
  (* s.encode('utf-8'); UnicodeEncodeError on a lone surrogate *)
  utf8_encode : string -> result (list Z);
  (* b.decode('utf-8') *)
  utf8_decode : list Z -> result string
}.

(** The part of the libraries' contract that the round trips rely on. *)
Class CodecLaws (C : Codecs) : Prop := {
  b64_roundtrip : forall bs, Forall is_byte bs -> b64decode (b64encode bs) = Ok bs;
  b64encode_nonempty : forall bs, bs <> [] -> b64encode bs <> EmptyString;
  gzip_roundtrip : forall now bs,
    Forall is_byte bs -> gzip_read (gzip_write now bs) = Ok bs;
  gzip_write_bytes : forall now bs,
    Forall is_byte bs -> Forall is_byte (gzip_write now bs);
  gzip_write_nonempty : forall now bs, gzip_write now bs <> [];
  utf8_roundtrip : forall s bs, utf8_encode s = Ok bs -> utf8_decode bs = Ok s;
  utf8_encode_bytes : forall s bs, utf8_encode s = Ok bs -> Forall is_byte bs;
  (* base-64 text is ASCII, which always encodes *)
  utf8_encode_b64 : forall bs, exists text_bytes, utf8_encode (b64encode bs) = Ok text_bytes
}.

(** [range(0, stop, step)] *)
Definition range_step (stop step : nat) : list nat :=
  map (fun c => (c * step)%nat) (seq 0 ((stop + step - 1) / step)).

(** ** converters/bool_converter.py *)

Module BoolListBase64Converter.

(** One iteration of the loop of [from_base64], after the [break] test. *)
Definition bit_value (data : list Z) (bit_index : nat) : bool :=
  let byte_index := Nat.shiftr bit_index 3 in
  let bit_in_byte := Nat.land bit_index 7 in
  let byte_value := nth byte_index data 0 in
  let bit_position := (7 - bit_in_byte)%nat in
  negb (Z.land byte_value (Z.shiftl 1 (Z.of_nat bit_position)) =? 0).

(** [for bit_index in range(n): ...], with [count] iterations left. *)
Fixpoint from_base64_loop (data : list Z) (count bit_index : nat) : list bool :=
  match count with
  | O => []
  | S count' =>
      let byte_index := Nat.shiftr bit_index 3 in
      if (length data <=? byte_index)%nat then []   (* break *)
      else bit_value data bit_index :: from_base64_loop data count' (S bit_index)
  end.

(** The loop of [from_base64] on the decoded buffer. *)
Definition bytes_to_bits (data : list Z) (expected_count : Z) : list bool :=
  let n := if 0 <? expected_count then expected_count
           else Z.of_nat (length data) * 8 in
  from_base64_loop data (Z.to_nat n) 0.

Definition from_base64 `{Codecs} (b64_string : string) (expected_count : Z)
  : result (list bool) :=
  if str_empty b64_string then Ok []
  else
    match b64decode b64_string with
    | Raise _ => Ok []
    | Ok data => Ok (bytes_to_bits data expected_count)
    end.

(** The inner loop of [to_base64]: the byte built from [bools[i .. i+7]]. *)
Definition byte_val (bools : list bool) (i : nat) : Z :=
  fold_left
    (fun acc j =>
       if (i + j <? length bools)%nat && nth (i + j) bools false
       then Z.lor acc (Z.shiftl 1 (Z.of_nat (7 - j)))
       else acc)
    (seq 0 8) 0.

(** The outer loop of [to_base64]: [bytes_list]. *)
Definition bools_to_bytes (bools : list bool) : list Z :=
  map (byte_val bools) (range_step (length bools) 8).

Definition to_base64 `{Codecs} (bools : list bool) : string :=
  if list_empty bools then EmptyString
  else b64encode (bools_to_bytes bools).

End BoolListBase64Converter.

(** ** converters/int_converter.py *)

Module IntListBase64Converter.

(** [struct.pack('<i', val)]: four little-endian bytes of the two's
    complement of [val]; [struct.error] outside the signed 32-bit range. *)
Definition pack_i32 (val : Z) : result (list Z) :=
  if (- 2 ^ 31 <=? val) && (val <=? 2 ^ 31 - 1) then
    let u := val mod 2 ^ 32 in
    Ok [u mod 256; (u / 2 ^ 8) mod 256; (u / 2 ^ 16) mod 256; (u / 2 ^ 24) mod 256]
  else Raise StructError.

(** [for val in int_list: byte_buffer.extend(struct.pack('<i', val))] *)
Fixpoint pack_loop (int_list : list Z) (byte_buffer : list Z) : result (list Z) :=
  match int_list with
  | [] => Ok byte_buffer
  | val :: int_list' =>
      packed ← pack_i32 val;
      pack_loop int_list' (byte_buffer ++ packed)
  end.

(** The argument is [None] when the caller passes Python's [None]. *)
Definition encode `{Codecs} (int_list : option (list Z)) : result string :=
  match int_list with
  | None => Raise ValueError
  | Some int_list =>
      if list_empty int_list then Ok EmptyString
      else
        byte_buffer ← pack_loop int_list [];
        Ok (b64encode byte_buffer)
  end.

(** One ['<i'] field read back as a signed integer. *)
Definition unpack_i32 (b0 b1 b2 b3 : Z) : Z :=
  let u := b0 + b1 * 2 ^ 8 + b2 * 2 ^ 16 + b3 * 2 ^ 24 in
  if u <? 2 ^ 31 then u else u - 2 ^ 32.

Fixpoint unpack_fields (count : nat) (buffer : list Z) : list Z :=
  match count, buffer with
  | S count', b0 :: b1 :: b2 :: b3 :: buffer' =>
      unpack_i32 b0 b1 b2 b3 :: unpack_fields count' buffer'
  | _, _ => []
  end.

(** [struct.unpack(f'<{count}i', buffer)]: [struct.error] unless the buffer
    holds exactly [4 * count] bytes. *)
Definition struct_unpack (count : nat) (buffer : list Z) : result (list Z) :=
  if (length buffer =? 4 * count)%nat then Ok (unpack_fields count buffer)
  else Raise StructError.

Definition decode `{Codecs} (b64_string : string) : result (list Z) :=
  if str_empty b64_string then Ok []
  else
    try_except
      (decoded_bytes ← b64decode b64_string;
       let count := (length decoded_bytes / 4)%nat in
       struct_unpack count (take (count * 4) decoded_bytes))
      (fun _ => Ok []).

End IntListBase64Converter.

(** ** converters/text_converter.py *)

Module TextCompressionUtility.

Definition decompress `{Codecs} (compressed_string : string) : result string :=
  if str_empty compressed_string then Ok EmptyString
  else
    try_except
      (compressed_bytes ← b64decode compressed_string;
       decompressed_bytes ← gzip_read compressed_bytes;
       utf8_decode decompressed_bytes)
      (fun _ => Ok EmptyString).

(** [now] is what [time.time()] reads when [GzipFile] writes its header. *)
Definition compress `{Codecs} (now : Z) (text : string) : result string :=
  if str_empty text then Ok EmptyString
  else
    try_except
      (text_bytes ← utf8_encode text;
       let compressed_bytes := gzip_write now text_bytes in
       Ok (b64encode compressed_bytes))
      (fun _ => Ok EmptyString).

End TextCompressionUtility.

(** ** formation_deck.py *)

Module FormationDeckCode.

(** The bit-reading loop of [decode], shared by the three kinds of field:
[[
    for i in range(count):
        if bit_index < len(bools):
            bit = 1 if bools[bit_index] else 0
            value = (value * 2) | bit
            bit_index += 1
]] *)
Fixpoint read_bits (bools : list bool) (count : nat) (value : Z) (bit_index : nat)
  : Z * nat :=
  match count with
  | O => (value, bit_index)
  | S count' =>
      if (bit_index <? length bools)%nat then
        let bit := if nth bit_index bools false then 1 else 0 in
        read_bits bools count' (Z.lor (value * 2) bit) (S bit_index)
      else read_bits bools count' value bit_index
  end.

(** [for ego_idx in range(n): ...; ego_mods.append(ego_mod)] *)
Fixpoint read_egos (bools : list bool) (n : nat) (ego_mods : list Z) (bit_index : nat)
  : list Z * nat :=
  match n with
  | O => (ego_mods, bit_index)
  | S n' =>
      let '(ego_mod, bit_index) := read_bits bools 7 0 bit_index in
      read_egos bools n' (ego_mods ++ [ego_mod]) bit_index
  end.

(** The three fields of one slot, as the loop body reads them. *)
Definition read_slot (bools : list bool) (bit_index : nat) : Z * Z * list Z * nat :=
  let '(personality_mod, bit_index) := read_bits bools 7 0 bit_index in
  let '(slot_type, bit_index) := read_bits bools 4 0 bit_index in
  let '(ego_mods, bit_index) := read_egos bools 5 [] bit_index in
  (personality_mod, slot_type, ego_mods, bit_index).

(** [for i, ego_id in enumerate(egos): if ...: had_errors = True; egos[i] = 0] *)
Definition validate_egos (egos : list Z) (had_errors : bool) : list Z * bool :=
  fold_left
    (fun '(egos, had_errors) i =>
       let ego_id := nth i egos 0 in
       if (0 <? ego_id) && ((ego_id <? 20000) || (99999 <? ego_id))
       then (<[i := 0]> egos, true)
       else (egos, had_errors))
    (seq 0 (length egos)) (egos, had_errors).

(** The [if validate:] block. *)
Definition validation (personality_id : Z) (egos : list Z) (slot_type : Z)
    (had_errors : bool) : Z * list Z * Z * bool :=
  let '(personality_id, had_errors) :=
    if (0 <? personality_id) && ((personality_id <? 10000) || (99999 <? personality_id))
    then (0, true) else (personality_id, had_errors) in
  let '(egos, had_errors) := validate_egos egos had_errors in
  let '(slot_type, had_errors) :=
    if (slot_type <? 0) || (15 <? slot_type)
    then (0, true) else (slot_type, had_errors) in
  (personality_id, egos, slot_type, had_errors).

(** [any(egos)] *)
Definition any (egos : list Z) : bool := existsb (fun e => negb (e =? 0)) egos.

(** The local state of the slot loop of [decode]. *)
Record decode_state : Type := {
  formations : list FormationDetailInfo;
  had_errors : bool;
  bit_index : nat
}.

(** The body of [for slot_num in range(1, 13)] in [decode]. *)
Definition decode_slot (validate : bool) (bools : list bool)
    (st : decode_state) (slot_num : Z) : decode_state :=
  let '(personality_mod, slot_type, ego_mods, bit_index) :=
    read_slot bools (bit_index st) in
  let slot_offset := slot_num * 100 in
  let personality_id :=
    if 0 <? personality_mod then personality_mod + 10000 + slot_offset else 0 in
  let egos :=
    map (fun ego_mod => if 0 <? ego_mod then ego_mod + 20000 + slot_offset else 0)
        ego_mods in
  let '(personality_id, egos, slot_type, had_errors) :=
    if validate then validation personality_id egos slot_type (had_errors st)
    else (personality_id, egos, slot_type, had_errors st) in
  let formations :=
    if (0 <? personality_mod) || any egos then
      formations st ++
        [ {| slot := slot_num;
             personality_id := personality_id;
             ego1 := nth 0 egos 0;
             ego2 := nth 1 egos 0;
             ego3 := nth 2 egos 0;
             ego4 := nth 3 egos 0;
             ego5 := nth 4 egos 0;
             enabled := 0 <? slot_type;
             slot_type := slot_type |} ]
    else formations st in
  {| formations := formations; had_errors := had_errors; bit_index := bit_index |}.

(** The slot loop of [decode] on the bit list. *)
Definition decode_bools (validate : bool) (bools : list bool) : decode_state :=
  fold_left (decode_slot validate bools) (seqZ 1 12)
            {| formations := []; had_errors := false; bit_index := 1 |}.

Definition decode `{Codecs} (encoded : string) (validate : bool)
  : result (list FormationDetailInfo * bool) :=
  if str_empty encoded then Ok ([], false)
  else
    inner_b64 ← TextCompressionUtility.decompress encoded;
    if str_empty inner_b64 then Ok ([], false)
    else
      bools ← BoolListBase64Converter.from_base64 inner_b64 553;  (* 0x229 *)
      if list_empty bools then Ok ([], false)
      else
        let st := decode_bools validate bools in
        Ok (formations st, had_errors st).

(** [_int_to_bools]: [for i in range(bit_count - 1, -1, -1)] *)
Definition int_to_bools (value : Z) (bit_count : nat) : list bool :=
  map (fun i => negb (Z.land (Z.shiftr value (Z.of_nat i)) 1 =? 0))
      (rev (seq 0 bit_count)).

(** [formation_map = {f.slot: f for f in formations}] *)
Definition formation_map (formations : list FormationDetailInfo)
  : gmap Z FormationDetailInfo :=
  fold_left (fun m f => <[slot f := f]> m) formations ∅.

(** [id % 100 if id > 0 else 0] *)
Definition modifier (id : Z) : Z := if 0 <? id then id mod 100 else 0.

(** The bits one iteration of the slot loop of [encode] appends. *)
Definition slot_bits (formation_map : gmap Z FormationDetailInfo) (slot_num : Z)
  : list bool :=
  let '(p_mod, s_type, e_mods) :=
    match formation_map !! slot_num with
    | Some f =>
        (modifier (personality_id f), slot_type f,
         [modifier (ego1 f); modifier (ego2 f); modifier (ego3 f);
          modifier (ego4 f); modifier (ego5 f)])
    | None => (0, 0, [0; 0; 0; 0; 0])
    end in
  fold_left (fun all_bits e_mod => all_bits ++ int_to_bools e_mod 7) e_mods
            (int_to_bools p_mod 7 ++ int_to_bools s_type 4).

(** [all_bits] at the end of the slot loop of the standard path. *)
Definition all_bits (formations : list FormationDetailInfo) : list bool :=
  let formation_map := formation_map formations in
  fold_left (fun all_bits slot_num => all_bits ++ slot_bits formation_map slot_num)
            (seqZ 1 12) [true].

(** [int_list] of the out-of-rule path. *)
Definition int_list (formations : list FormationDetailInfo) : list Z :=
  fold_left
    (fun int_list f =>
       int_list ++ [personality_id f; slot_type f;
                    ego1 f; ego2 f; ego3 f; ego4 f; ego5 f])
    formations [].

(** [now] is the clock reading of the one call of [compress]. *)
Definition encode `{Codecs} (now : Z) (formations : list FormationDetailInfo)
    (out_of_rule : bool) : result string :=
  if list_empty formations then Ok EmptyString
  else
    inner_b64 ←
      (if out_of_rule then IntListBase64Converter.encode (Some (int_list formations))
       else Ok (BoolListBase64Converter.to_base64 (all_bits formations)));
    TextCompressionUtility.compress now inner_b64.

End FormationDeckCode.

(** ** A reference implementation of the library codecs

    Any implementation meeting [CodecLaws] can stand for the Python
    libraries.  This one does: RFC 4648 base-64 with padding, UTF-8 for the
    code points a [string] holds (0..255), and a container that writes the
    ten bytes of a gzip header, the time included, in front of the stored
    payload. *)

Module Reference.

Definition alphabet : list ascii :=
  list_ascii_of_string
    "ABCDEFGHIJKLMNOPQRSTUVWXYZabcdefghijklmnopqrstuvwxyz0123456789+/".

Definition pad : ascii := "="%char.

Definition sextet_char (s : Z) : ascii := nth (Z.to_nat s) alphabet pad.

Fixpoint find_index (c : ascii) (l : list ascii) (i : Z) : option Z :=
  match l with
  | [] => None
  | x :: l' => if Ascii.eqb c x then Some i else find_index c l' (i + 1)
  end.

Definition char_sextet (c : ascii) : option Z := find_index c alphabet 0.

Fixpoint encode_chars (bs : list Z) : list ascii :=
  match bs with
  | [] => []
  | [b0] => [sextet_char (b0 / 4); sextet_char (b0 mod 4 * 16); pad; pad]
  | [b0; b1] =>
      [sextet_char (b0 / 4); sextet_char (b0 mod 4 * 16 + b1 / 16);
       sextet_char (b1 mod 16 * 4); pad]
  | b0 :: b1 :: b2 :: bs' =>
      sextet_char (b0 / 4) :: sextet_char (b0 mod 4 * 16 + b1 / 16)
        :: sextet_char (b1 mod 16 * 4 + b2 / 64) :: sextet_char (b2 mod 64)
        :: encode_chars bs'
  end.

Fixpoint decode_chars (cs : list ascii) : result (list Z) :=
  match cs with
  | [] => Ok []
  | c0 :: c1 :: c2 :: c3 :: cs' =>
      match char_sextet c0, char_sextet c1 with
      | Some s0, Some s1 =>
          let b0 := s0 * 4 + s1 / 16 in
          match char_sextet c2, char_sextet c3, cs' with
          | Some s2, Some s3, _ =>
              bs ← decode_chars cs';
              Ok (b0 :: s1 mod 16 * 16 + s2 / 4 :: s2 mod 4 * 64 + s3 :: bs)
          | Some s2, None, [] =>
              if Ascii.eqb c3 pad then Ok [b0; s1 mod 16 * 16 + s2 / 4]
              else Raise BinasciiError
          | None, None, [] =>
              if Ascii.eqb c2 pad && Ascii.eqb c3 pad then Ok [b0]
              else Raise BinasciiError
          | _, _, _ => Raise BinasciiError
          end
      | _, _ => Raise BinasciiError
      end
  | _ => Raise BinasciiError
  end.

Definition ref_b64encode (bs : list Z) : string :=
  string_of_list_ascii (encode_chars bs).

Definition ref_b64decode (s : string) : result (list Z) :=
  decode_chars (list_ascii_of_string s).

(** ID1, ID2, CM, FLG; MTIME (four little-endian bytes); XFL, OS. *)
Definition gzip_header (now : Z) : list Z :=
  let mtime := now mod 2 ^ 32 in
  [31; 139; 8; 0;
   mtime mod 256; (mtime / 2 ^ 8) mod 256; (mtime / 2 ^ 16) mod 256;
   (mtime / 2 ^ 24) mod 256;
   2; 255].

Definition ref_gzip_write (now : Z) (bs : list Z) : list Z := gzip_header now ++ bs.

Definition ref_gzip_read (bs : list Z) : result (list Z) :=
  match bs with
  | id1 :: id2 :: cm :: _ :: _ :: _ :: _ :: _ :: _ :: _ :: payload =>
      if (id1 =? 31) && (id2 =? 139) && (cm =? 8) then Ok payload
      else Raise GzipError
  | _ => Raise GzipError
  end.

Definition code_point (c : ascii) : Z := Z.of_N (N_of_ascii c).
Definition chr (n : Z) : ascii := ascii_of_N (Z.to_N n).

Fixpoint utf8_bytes (s : string) : list Z :=
  match s with
  | EmptyString => []
  | String c s' =>
      let n := code_point c in
      if n <? 128 then n :: utf8_bytes s'
      else 192 + n / 64 :: 128 + n mod 64 :: utf8_bytes s'
  end.

(** A [string] holds no surrogate, so encoding never fails here. *)
Definition ref_utf8_encode (s : string) : result (list Z) := Ok (utf8_bytes s).

Fixpoint ref_utf8_decode (bs : list Z) : result string :=
  match bs with
  | [] => Ok EmptyString
  | b :: bs' =>
      if (0 <=? b) && (b <? 128) then
        s ← ref_utf8_decode bs';
        Ok (String (chr b) s)
      else
        match bs' with
        | b' :: bs'' =>
            if (194 <=? b) && (b <? 196) && (128 <=? b') && (b' <? 192) then
              s ← ref_utf8_decode bs'';
              Ok (String (chr ((b - 192) * 64 + (b' - 128))) s)
            else Raise UnicodeError
        | [] => Raise UnicodeError
        end
  end.

#[export] Instance codecs : Codecs := {|
  b64encode := ref_b64encode;
  b64decode := ref_b64decode;
  gzip_write := ref_gzip_write;
  gzip_read := ref_gzip_read;
  utf8_encode := ref_utf8_encode;
  utf8_decode := ref_utf8_decode
|}.

End Reference.

(** The same codecs over strings in which a character above 127 stands for
    a lone surrogate: [str.encode('utf-8')] refuses those. *)
Module Surrogates.

Fixpoint strict_bytes (s : string) : result (list Z) :=
  match s with
  | EmptyString => Ok []
  | String c s' =>
      let n := Reference.code_point c in
      if n <? 128 then bs ← strict_bytes s'; Ok (n :: bs)
      else Raise UnicodeError
  end.

#[export] Instance codecs : Codecs := {|
  b64encode := Reference.ref_b64encode;
  b64decode := Reference.ref_b64decode;
  gzip_write := Reference.ref_gzip_write;
  gzip_read := Reference.ref_gzip_read;
  utf8_encode := strict_bytes;
  utf8_decode := Reference.ref_utf8_decode
|}.

End Surrogates.

(** ** Vocabulary of the statements *)

(** The signed 32-bit range, INT32_MIN to INT32_MAX. *)
Definition int32 (v : Z) : Prop := - 2147483648 <= v <= 2147483647.

(** The four bytes [struct.pack('<i', v)] produces for an in-range [v]. *)
Definition le32 (v : Z) : list Z :=
  let u := v mod 2 ^ 32 in
  [u mod 256; (u / 2 ^ 8) mod 256; (u / 2 ^ 16) mod 256; (u / 2 ^ 24) mod 256].

(** A value read from a 7-bit field. *)
Definition mod7 (m : Z) : Prop := 0 <= m <= 127.

(** The bit index at which the decoder starts reading slot [k + 1]. *)
Fixpoint cursor (bools : list bool) (k : nat) : nat :=
  match k with
  | O => 1%nat
  | S k' => snd (FormationDeckCode.read_slot bools (cursor bools k'))
  end.

(** The moduli and slot type on the wire for slot [k + 1]. *)
Definition wire_fields (bools : list bool) (k : nat) : Z * Z * list Z :=
  fst (FormationDeckCode.read_slot bools (cursor bools k)).

(** [modulus + base + slot_offset if modulus > 0 else 0] *)
Definition rebuild (base slot_num modulus : Z) : Z :=
  if 0 <? modulus then modulus + base + slot_num * 100 else 0.

(** What an iteration of the slot loop appends, validation apart. *)
Definition emitted (slot_num : Z) (fields : Z * Z * list Z) : list FormationDetailInfo :=
  let '(p, t, ego_mods) := fields in
  let egos := map (rebuild 20000 slot_num) ego_mods in
  if (0 <? p) || FormationDeckCode.any egos then
    [ {| slot := slot_num;
         personality_id := rebuild 10000 slot_num p;
         ego1 := nth 0 egos 0; ego2 := nth 1 egos 0; ego3 := nth 2 egos 0;
         ego4 := nth 3 egos 0; ego5 := nth 4 egos 0;
         enabled := 0 <? t; slot_type := t |} ]
  else [].

(** The bits [decode] runs its slot loop on ([[]] when a layer gave nothing). *)
Definition wire_bits `{Codecs} (encoded : string) : list bool :=
  match TextCompressionUtility.decompress encoded with
  | Ok inner_b64 =>
      match BoolListBase64Converter.from_base64 inner_b64 553 with
      | Ok bools => bools
      | Raise _ => []
      end
  | Raise _ => []
  end.

(** The ranges of the values [decode] can reconstruct from the wire. *)
Definition in_wire_range (f : FormationDetailInfo) : Prop :=
  (personality_id f = 0 \/ 10101 <= personality_id f <= 11327)
  /\ Forall (fun e => e = 0 \/ 20101 <= e <= 21327)
            [ego1 f; ego2 f; ego3 f; ego4 f; ego5 f]
  /\ 0 <= slot_type f <= 15.

(** The moduli and slot type [encode] writes for a slot number. *)
Definition slot_values (m : gmap Z FormationDetailInfo) (slot_num : Z) : Z * Z * list Z :=
  match m !! slot_num with
  | Some f =>
      (FormationDeckCode.modifier (personality_id f), slot_type f,
       map FormationDeckCode.modifier [ego1 f; ego2 f; ego3 f; ego4 f; ego5 f])
  | None => (0, 0, [0; 0; 0; 0; 0])
  end.

(** The 46 bits of a slot: 7 + 4 + 5 * 7, each field MSB-first. *)
Definition field_bits (values : Z * Z * list Z) : list bool :=
  let '(p_mod, s_type, e_mods) := values in
  FormationDeckCode.int_to_bools p_mod 7 ++ FormationDeckCode.int_to_bools s_type 4
    ++ flat_map (fun e_mod => FormationDeckCode.int_to_bools e_mod 7) e_mods.

(** The last formation of the list that carries slot number [n]. *)
Definition last_with_slot (n : Z) (fs : list FormationDetailInfo)
  : option FormationDetailInfo :=
  last (List.filter (fun f => slot f =? n) fs).

(** The moduli and slot type written for slot number [n]: those of the last
    formation of the list with that slot number, zeros when there is none. *)
Definition chosen_values (n : Z) (fs : list FormationDetailInfo) : Z * Z * list Z :=
  match last_with_slot n fs with
  | Some f =>
      (FormationDeckCode.modifier (personality_id f), slot_type f,
       map FormationDeckCode.modifier [ego1 f; ego2 f; ego3 f; ego4 f; ego5 f])
  | None => (0, 0, [0; 0; 0; 0; 0])
  end.

(** The part of the written values that fits the fields. *)
Definition on_wire (values : Z * Z * list Z) : Z * Z * list Z :=
  let '(p_mod, s_type, e_mods) := values in
  (p_mod mod 128, s_type mod 16, map (fun e_mod => e_mod mod 128) e_mods).

(** An ID that [encode] and [decode] carry faithfully for slot [slot_num]:
    0, or [slot_num * 100 + base + m] with a two-digit modulus [m]. *)
Definition valid_id (base slot_num id : Z) : Prop :=
  id = 0 \/ exists m, 1 <= m <= 99 /\ id = slot_num * 100 + base + m.

Definition valid_egos (f : FormationDetailInfo) : Prop :=
  valid_id 20000 (slot f) (ego1 f) /\ valid_id 20000 (slot f) (ego2 f)
  /\ valid_id 20000 (slot f) (ego3 f) /\ valid_id 20000 (slot f) (ego4 f)
  /\ valid_id 20000 (slot f) (ego5 f).

Definition valid_formation (f : FormationDetailInfo) : Prop :=
  1 <= slot f <= 12
  /\ valid_id 10000 (slot f) (personality_id f)
  /\ valid_egos f
  /\ 0 <= slot_type f <= 15.

(** The ranges of section 3 of the specification: the modulus of a non-zero
    ID is any 7-bit value. *)
Definition spec_valid_id (base slot_num id : Z) : Prop :=
  id = 0 \/ exists m, 0 <= m <= 127 /\ id = slot_num * 100 + base + m.

Definition spec_valid_formation (f : FormationDetailInfo) : Prop :=
  1 <= slot f <= 12
  /\ spec_valid_id 10000 (slot f) (personality_id f)
  /\ spec_valid_id 20000 (slot f) (ego1 f) /\ spec_valid_id 20000 (slot f) (ego2 f)
  /\ spec_valid_id 20000 (slot f) (ego3 f) /\ spec_valid_id 20000 (slot f) (ego4 f)
  /\ spec_valid_id 20000 (slot f) (ego5 f)
  /\ 0 <= slot_type f <= 15.

Definition nonempty_slot (f : FormationDetailInfo) : Prop :=
  personality_id f <> 0 \/ ego1 f <> 0 \/ ego2 f <> 0 \/ ego3 f <> 0
  \/ ego4 f <> 0 \/ ego5 f <> 0.

(** The formation with [enabled] derived from the slot type. *)
Definition as_decoded (f : FormationDetailInfo) : FormationDetailInfo :=
  {| slot := slot f; personality_id := personality_id f;
     ego1 := ego1 f; ego2 := ego2 f; ego3 := ego3 f; ego4 := ego4 f; ego5 := ego5 f;
     enabled := 0 <? slot_type f; slot_type := slot_type f |}.

(** Sample formations: the fixture of the test suite and variations. *)
Module Samples.

Definition sample_formation : FormationDetailInfo :=
  {| slot := 1; personality_id := 10101;
     ego1 := 20101; ego2 := 20102; ego3 := 20103; ego4 := 0; ego5 := 0;
     enabled := true; slot_type := 1 |}.

Definition third_slot : FormationDetailInfo :=
  {| slot := 3; personality_id := 10399;
     ego1 := 0; ego2 := 20350; ego3 := 0; ego4 := 0; ego5 := 0;
     enabled := false; slot_type := 15 |}.

(** Slot 1 with personality modulus 100. *)
Definition modulus_100 : FormationDetailInfo :=
  {| slot := 1; personality_id := 10200;
     ego1 := 0; ego2 := 0; ego3 := 0; ego4 := 0; ego5 := 0;
     enabled := true; slot_type := 1 |}.

(** The formation of [test_validation_invalid_personality_id]. *)
Definition way_out_of_range : FormationDetailInfo :=
  {| slot := 1; personality_id := 99999999;
     ego1 := 0; ego2 := 0; ego3 := 0; ego4 := 0; ego5 := 0;
     enabled := true; slot_type := 1 |}.

(** The fixture with a slot type that needs five bits. *)
Definition slot_type_16 : FormationDetailInfo :=
  {| slot := 1; personality_id := 10101;
     ego1 := 20101; ego2 := 20102; ego3 := 20103; ego4 := 0; ego5 := 0;
     enabled := true; slot_type := 16 |}.

Definition slot_13 : FormationDetailInfo :=
  {| slot := 13; personality_id := 11301;
     ego1 := 21301; ego2 := 0; ego3 := 0; ego4 := 0; ego5 := 0;
     enabled := true; slot_type := 1 |}.

End Samples.

(** The number a bit list spells, most significant bit first. *)
Definition msb_value (bits : list bool) : Z :=
  fold_left (fun acc (b : bool) => acc * 2 + (if b then 1 else 0)) bits 0.

(** The seven integers the out-of-rule path stores for a formation. *)
Definition fields_of (f : FormationDetailInfo) : list Z :=
  [personality_id f; slot_type f; ego1 f; ego2 f; ego3 f; ego4 f; ego5 f].

(** The formation with another slot number and enabled flag. *)
Definition relabel (slot_num : Z) (flag : bool) (f : FormationDetailInfo)
  : FormationDetailInfo :=
  {| slot := slot_num; personality_id := personality_id f;
     ego1 := ego1 f; ego2 := ego2 f; ego3 := ego3 f; ego4 := ego4 f; ego5 := ego5 f;
     enabled := flag; slot_type := slot_type f |}.

(** An ID as [decode] builds it for a slot: 0, or a non-zero 7-bit modulus
    above [base + slot_num * 100]. *)
Definition decoded_id (base slot_num id : Z) : Prop :=
  id = 0 \/ exists m, 1 <= m <= 127 /\ id = m + base + slot_num * 100.

(** The range tests of the validation block. *)
Definition bad_id (low id : Z) : bool :=
  (0 <? id) && ((id <? low) || (99999 <? id)).

Definition bad_slot_type (slot_type : Z) : bool := (slot_type <? 0) || (15 <? slot_type).

(** What holds of every formation [decode] returns. *)
Definition well_formed_output (f : FormationDetailInfo) : Prop :=
  1 <= slot f <= 12
  /\ enabled f = (0 <? slot_type f)
  /\ 0 <= slot_type f <= 15
  /\ decoded_id 10000 (slot f) (personality_id f)
  /\ decoded_id 20000 (slot f) (ego1 f) /\ decoded_id 20000 (slot f) (ego2 f)
  /\ decoded_id 20000 (slot f) (ego3 f) /\ decoded_id 20000 (slot f) (ego4 f)
  /\ decoded_id 20000 (slot f) (ego5 f)
  /\ nonempty_slot f.

(** [bits[start : start + count]] *)
Definition slice (start count : nat) (bits : list bool) : list bool :=
  take count (drop start bits).

(** * Part II: properties *)

Ltac Zify.zify_post_hook ::= Z.to_euclidean_division_equations.

(** ** Bit-level arithmetic *)

Section BitFacts.

Lemma land_mask_testbit (a n : Z) :
  0 <= n -> negb (Z.land a (Z.shiftl 1 n) =? 0) = Z.testbit a n.
Proof.
  intros Hn. rewrite Z.shiftl_1_l.
  destruct (Z.testbit a n) eqn:Ha.
  - assert (Z.land a (2 ^ n) = 2 ^ n) as ->.
    { apply Z.bits_inj'. intros k Hk.
      rewrite Z.land_spec, Z.pow2_bits_eqb by lia.
      destruct (Z.eqb_spec n k) as [->|]; [now rewrite Ha | apply andb_false_r]. }
    assert (0 < 2 ^ n) by (apply Z.pow_pos_nonneg; lia).
    destruct (Z.eqb_spec (2 ^ n) 0); [lia | reflexivity].
  - assert (Z.land a (2 ^ n) = 0) as ->; [| reflexivity].
    apply Z.bits_inj'. intros k Hk.
    rewrite Z.land_spec, Z.pow2_bits_eqb, Z.bits_0 by lia.
    destruct (Z.eqb_spec n k) as [->|]; [now rewrite Ha | apply andb_false_r].
Qed.

Lemma lor_byte (a b : Z) : is_byte a -> is_byte b -> is_byte (Z.lor a b).
Proof.
  unfold is_byte. intros Ha Hb.
  assert (0 <= Z.lor a b) by (apply Z.lor_nonneg; lia).
  assert (Z.shiftr (Z.lor a b) 8 = 0) as Hs.
  { rewrite Z.shiftr_lor, !Z.shiftr_div_pow2 by lia.
    change (2 ^ 8) with 256. rewrite !Z.div_small by lia. reflexivity. }
  rewrite Z.shiftr_div_pow2 in Hs by lia.
  change (2 ^ 8) with 256 in Hs.
  pose proof (Z.div_mod (Z.lor a b) 256 ltac:(lia)) as Hdm.
  pose proof (Z.mod_pos_bound (Z.lor a b) 256 ltac:(lia)).
  rewrite Hs in Hdm. lia.
Qed.

(** [(value * 2) | bit] appends [bit] below [value]. *)
Lemma lor_double_bit (value : Z) (b : bool) :
  Z.lor (value * 2) (if b then 1 else 0) = value * 2 + (if b then 1 else 0).
Proof.
  destruct b; [| now rewrite Z.lor_0_r, Z.add_0_r].
  apply Z.bits_inj'. intros k Hk.
  rewrite Z.lor_spec, (Z.mul_comm value 2).
  destruct (Z.eq_dec k 0) as [->|Hk0].
  - now rewrite Z.testbit_even_0, Z.testbit_odd_0.
  - replace k with (Z.succ (k - 1)) by lia.
    rewrite Z.testbit_even_succ, Z.testbit_odd_succ by lia.
    replace (Z.succ (k - 1)) with k by lia.
    change 1 with (2 ^ 0). rewrite Z.pow2_bits_eqb by lia.
    destruct (Z.eqb_spec 0 k); [lia | apply orb_false_r].
Qed.

End BitFacts.

(** ** The byte-bit adapter *)

Section ByteBit.
Import BoolListBase64Converter.

Lemma length_range_step (stop : nat) :
  length (range_step stop 8) = ((stop + 7) / 8)%nat.
Proof.
  unfold range_step. rewrite length_map, length_seq.
  replace (stop + 8 - 1)%nat with (stop + 7)%nat by lia. reflexivity.
Qed.

Lemma length_bools_to_bytes (bools : list bool) :
  length (bools_to_bytes bools) = ((length bools + 7) / 8)%nat.
Proof. unfold bools_to_bytes. now rewrite length_map, length_range_step. Qed.

Lemma nth_bools_to_bytes (bools : list bool) (c : nat) :
  (c < (length bools + 7) / 8)%nat ->
  nth c (bools_to_bytes bools) 0 = byte_val bools (c * 8).
Proof.
  intros Hc. unfold bools_to_bytes, range_step.
  replace (length bools + 8 - 1)%nat with (length bools + 7)%nat by lia.
  rewrite map_map.
  rewrite (nth_indep _ 0 (byte_val bools (0 * 8))) by now rewrite length_map, length_seq.
  rewrite (map_nth (fun c => byte_val bools (c * 8))), seq_nth by assumption.
  reflexivity.
Qed.

(** The bits of the accumulator of the inner loop of [to_base64]. *)
Lemma testbit_byte_fold (bools : list bool) (i : nat) (js : list nat) (acc q : Z) :
  0 <= q ->
  Z.testbit
    (fold_left
       (fun acc j =>
          if (i + j <? length bools)%nat && nth (i + j) bools false
          then Z.lor acc (Z.shiftl 1 (Z.of_nat (7 - j)))
          else acc) js acc) q
  = Z.testbit acc q
    || existsb (fun j => (i + j <? length bools)%nat && nth (i + j) bools false
                         && (Z.of_nat (7 - j) =? q)) js.
Proof.
  intros Hq. revert acc. induction js as [|j js IH]; intros acc; simpl.
  - now rewrite orb_false_r.
  - rewrite IH.
    destruct ((i + j <? length bools)%nat && nth (i + j) bools false); simpl.
    + rewrite Z.lor_spec, Z.shiftl_1_l, Z.pow2_bits_eqb by lia.
      now rewrite orb_assoc.
    + reflexivity.
Qed.

Lemma testbit_byte_val (bools : list bool) (i p : nat) :
  (p < 8)%nat ->
  Z.testbit (byte_val bools i) (Z.of_nat p)
  = (i + (7 - p) <? length bools)%nat && nth (i + (7 - p)) bools false.
Proof.
  intros Hp. unfold byte_val. rewrite testbit_byte_fold by lia.
  rewrite Z.bits_0, orb_false_l.
  do 8 (destruct p as [|p]; [cbn; now rewrite ?andb_false_r, ?orb_false_r, ?andb_true_r |]).
  lia.
Qed.

Lemma byte_val_is_byte (bools : list bool) (i : nat) : is_byte (byte_val bools i).
Proof.
  unfold byte_val. generalize (seq 0 8).
  assert (is_byte 0) as H0 by (unfold is_byte; lia). revert H0.
  generalize 0 at 1 2. intros acc Hacc js. revert acc Hacc.
  induction js as [|j js IH]; intros acc Hacc; simpl; [assumption |].
  apply IH.
  destruct ((i + j <? length bools)%nat && nth (i + j) bools false); [| assumption].
  apply lor_byte; [assumption |].
  rewrite Z.shiftl_1_l. unfold is_byte.
  assert (0 < 2 ^ Z.of_nat (7 - j)) by (apply Z.pow_pos_nonneg; lia).
  assert (2 ^ Z.of_nat (7 - j) <= 2 ^ 7) by (apply Z.pow_le_mono_r; lia).
  change (2 ^ 7) with 128 in *. lia.
Qed.

Lemma bools_to_bytes_bytes (bools : list bool) : Forall is_byte (bools_to_bytes bools).
Proof.
  unfold bools_to_bytes. apply List.Forall_forall. intros b Hb.
  apply in_map_iff in Hb as (i & <- & _). apply byte_val_is_byte.
Qed.

(** Without the [break], the loop of [from_base64] maps over the indices. *)
Lemma from_base64_loop_map (data : list Z) (count start : nat) :
  (start + count <= 8 * length data)%nat ->
  from_base64_loop data count start = map (bit_value data) (seq start count).
Proof.
  revert start. induction count as [|count IH]; intros start Hle;
    cbn [from_base64_loop seq map]; [reflexivity |].
  rewrite Nat.shiftr_div_pow2. change (2 ^ 3)%nat with 8%nat.
  destruct (Nat.leb_spec (length data) (start / 8)) as [Hbreak|_].
  - exfalso. lia.
  - f_equal. apply IH. lia.
Qed.

Lemma bit_value_bools_to_bytes (bools : list bool) (k : nat) :
  (k < length bools)%nat ->
  bit_value (bools_to_bytes bools) k = nth k bools false.
Proof.
  intros Hk. unfold bit_value.
  rewrite Nat.shiftr_div_pow2. change (2 ^ 3)%nat with 8%nat.
  change (Nat.land k 7) with (Nat.land k (Nat.ones 3)).
  rewrite Nat.land_ones. change (2 ^ 3)%nat with 8%nat.
  rewrite nth_bools_to_bytes by lia.
  rewrite land_mask_testbit by lia.
  rewrite testbit_byte_val by lia.
  replace (k / 8 * 8 + (7 - (7 - k mod 8)))%nat with k by lia.
  destruct (Nat.ltb_spec k (length bools)); [reflexivity | lia].
Qed.

Lemma map_nth_seq {A} (l : list A) (d : A) :
  map (fun k => nth k l d) (seq 0 (length l)) = l.
Proof.
  apply (nth_ext _ _ d d).
  - now rewrite length_map, length_seq.
  - intros n Hn. rewrite length_map, length_seq in Hn.
    rewrite (nth_indep _ d (nth 0 l d)) by now rewrite length_map, length_seq.
    rewrite (map_nth (fun k => nth k l d)), seq_nth by assumption. reflexivity.
Qed.

Lemma bytes_to_bits_roundtrip (B : list bool) :
  bytes_to_bits (bools_to_bytes B) (Z.of_nat (length B)) = B.
Proof.
  destruct B as [|b B]; [reflexivity |].
  set (bools := b :: B).
  assert (0 < length bools)%nat as Hlen by (simpl; lia).
  unfold bytes_to_bits.
  destruct (Z.ltb_spec 0 (Z.of_nat (length bools))) as [_|]; [| lia].
  rewrite Nat2Z.id, from_base64_loop_map.
  - rewrite <- (map_nth_seq bools false) at 3.
    apply map_ext_in. intros k Hk. apply in_seq in Hk.
    apply bit_value_bools_to_bytes. lia.
  - rewrite length_bools_to_bytes. lia.
Qed.

End ByteBit.

(** C6.  Converting a boolean sequence to bytes (MSB-first, the last chunk
    padded with zero bits) and reading back exactly [len(B)] bits returns
    the sequence itself; this includes the empty sequence. *)
Theorem bytes_to_bits_bools_to_bytes (B : list bool) :
  BoolListBase64Converter.bytes_to_bits
    (BoolListBase64Converter.bools_to_bytes B) (Z.of_nat (length B)) = B.
Proof. apply bytes_to_bits_roundtrip. Qed.

(** ** The integer-list codec *)

Section IntList.
Import IntListBase64Converter.
Context `{C : Codecs}.

Lemma pack_i32_in_range (v : Z) : int32 v -> pack_i32 v = Ok (le32 v).
Proof.
  unfold int32, pack_i32, le32. intros Hv.
  change (- 2 ^ 31) with (- 2147483648). change (2 ^ 31 - 1) with 2147483647.
  destruct (Z.leb_spec (- 2147483648) v); [| lia].
  destruct (Z.leb_spec v 2147483647); [| lia].
  reflexivity.
Qed.

Lemma pack_i32_raises (v : Z) (e : exn) : pack_i32 v = Raise e -> e = StructError.
Proof.
  unfold pack_i32.
  destruct ((- 2 ^ 31 <=? v) && (v <=? 2 ^ 31 - 1)); congruence.
Qed.

Lemma pack_loop_raises (l : list Z) (acc : list Z) (e : exn) :
  pack_loop l acc = Raise e -> e = StructError.
Proof.
  revert acc. induction l as [|v l IH]; intros acc; simpl; [congruence |].
  destruct (pack_i32 v) as [bs|e'] eqn:Hp; simpl.
  - apply IH.
  - intros [= <-]. eapply pack_i32_raises, Hp.
Qed.

Lemma le32_bytes (v : Z) : Forall is_byte (le32 v).
Proof.
  unfold le32, is_byte. change (2 ^ 8) with 256. change (2 ^ 16) with 65536.
  change (2 ^ 24) with 16777216. change (2 ^ 32) with 4294967296.
  repeat constructor; lia.
Qed.

Lemma unpack_le32 (v : Z) :
  int32 v ->
  match le32 v with
  | [b0; b1; b2; b3] => unpack_i32 b0 b1 b2 b3 = v
  | _ => False
  end.
Proof.
  unfold int32, le32, unpack_i32. intros Hv.
  change (2 ^ 8) with 256. change (2 ^ 16) with 65536.
  change (2 ^ 24) with 16777216. change (2 ^ 32) with 4294967296.
  change (2 ^ 31) with 2147483648.
  destruct (Z.ltb_spec
    (v mod 4294967296 mod 256 + v mod 4294967296 / 256 mod 256 * 256
     + v mod 4294967296 / 65536 mod 256 * 65536
     + v mod 4294967296 / 16777216 mod 256 * 16777216) 2147483648); lia.
Qed.

Lemma pack_loop_in_range (l : list Z) (acc : list Z) :
  Forall int32 l -> pack_loop l acc = Ok (acc ++ flat_map le32 l).
Proof.
  intros Hl. revert acc. induction Hl as [|v l Hv _ IH]; intros acc; simpl.
  - now rewrite app_nil_r.
  - rewrite pack_i32_in_range by assumption. simpl.
    rewrite IH. unfold le32. now rewrite <- app_assoc.
Qed.

Lemma length_flat_map_le32 (l : list Z) :
  length (flat_map le32 l) = (4 * length l)%nat.
Proof. induction l as [|v l IH]; simpl; lia. Qed.

Lemma flat_map_le32_bytes (l : list Z) : Forall is_byte (flat_map le32 l).
Proof.
  induction l as [|v l IH]; simpl; [constructor |].
  pose proof (le32_bytes v) as Hb. unfold le32 in Hb.
  repeat (apply Forall_cons_1 in Hb as [? Hb]).
  repeat (constructor; [assumption |]). assumption.
Qed.

Lemma unpack_fields_le32 (l : list Z) :
  Forall int32 l -> unpack_fields (length l) (flat_map le32 l) = l.
Proof.
  induction 1 as [|v l Hv _ IH]; [reflexivity |].
  pose proof (unpack_le32 v Hv) as Hu.
  cbn [length flat_map]. unfold le32 in *. cbn [app unpack_fields].
  now rewrite Hu, IH.
Qed.

End IntList.

(** C7.  For every sequence of signed 32-bit integers, [decode] applied to
    the result of [encode] returns the sequence, in order; a non-empty
    sequence is encoded as the base-64 text of its values laid out as four
    little-endian bytes each. *)
Theorem int_list_roundtrip `{C : Codecs} `{!CodecLaws C} (v : list Z) :
  Forall int32 v ->
  exists s, IntListBase64Converter.encode (Some v) = Ok s
            /\ (v <> [] -> s = b64encode (flat_map le32 v))
            /\ IntListBase64Converter.decode s = Ok v.
Proof.
  intros Hv. unfold IntListBase64Converter.encode, IntListBase64Converter.decode.
  destruct v as [|x v]; [exists EmptyString; repeat split; congruence |].
  set (l := x :: v) in *. cbn [list_empty].
  replace (list_empty l) with false by reflexivity.
  rewrite pack_loop_in_range by assumption. simpl app.
  exists (b64encode (flat_map le32 l)). split; [reflexivity |]. split; [reflexivity |].
  assert (flat_map le32 l <> []) as Hne.
  { intros Heq. apply (f_equal (@length Z)) in Heq.
    rewrite length_flat_map_le32 in Heq. simpl in Heq. lia. }
  assert (str_empty (b64encode (flat_map le32 l)) = false) as ->.
  { destruct (b64encode (flat_map le32 l)) eqn:Hs; [| reflexivity].
    exfalso; eapply b64encode_nonempty; eassumption. }
  rewrite b64_roundtrip by apply flat_map_le32_bytes.
  cbn [mbind result_bind try_except].
  rewrite length_flat_map_le32.
  replace (4 * length l / 4)%nat with (length l) by lia.
  rewrite firstn_all2 by (rewrite length_flat_map_le32; lia).
  unfold IntListBase64Converter.struct_unpack.
  rewrite length_flat_map_le32, Nat.eqb_refl.
  now rewrite unpack_fields_le32.
Qed.

(** C8.  [encode] raises the invalid-input exception ([ValueError]) exactly
    when its argument is [None]; the empty list is encoded as the empty
    string. *)
Theorem int_list_encode_none `{C : Codecs} (int_list : option (list Z)) :
  (IntListBase64Converter.encode int_list = Raise ValueError <-> int_list = None)
  /\ IntListBase64Converter.encode (Some []) = Ok EmptyString.
Proof.
  split; [| reflexivity].
  unfold IntListBase64Converter.encode.
  destruct int_list as [l|]; [| tauto].
  split; [| discriminate].
  destruct (list_empty l); [discriminate |].
  destruct (IntListBase64Converter.pack_loop l []) as [bs|e] eqn:Hp; simpl.
  - discriminate.
  - intros [= ->]. apply pack_loop_raises in Hp. discriminate.
Qed.

(** ** The fields the decoder reads *)

Section DecodeFields.
Import FormationDeckCode.

Lemma read_bits_bound (bools : list bool) (count : nat) (value : Z) (i : nat) :
  0 <= value ->
  0 <= fst (read_bits bools count value i)
  /\ fst (read_bits bools count value i) + 1 <= (value + 1) * 2 ^ Z.of_nat count.
Proof.
  revert value i. induction count as [|count IH]; intros value i Hv.
  - simpl. lia.
  - cbn [read_bits]. rewrite Nat2Z.inj_succ, Z.pow_succ_r by lia.
    assert (0 < 2 ^ Z.of_nat count) by (apply Z.pow_pos_nonneg; lia).
    destruct (i <? length bools)%nat.
    + rewrite lor_double_bit.
      set (bit := if nth i bools false then 1 else 0).
      assert (0 <= bit <= 1) by (subst bit; destruct (nth i bools false); lia).
      destruct (IH (value * 2 + bit) (S i) ltac:(lia)) as [Hlo Hhi].
      split; [assumption |]. nia.
    + destruct (IH value i Hv) as [Hlo Hhi]. split; [assumption |]. nia.
Qed.

Lemma read_bits_7 (bools : list bool) (i : nat) : mod7 (fst (read_bits bools 7 0 i)).
Proof.
  destruct (read_bits_bound bools 7 0 i ltac:(lia)) as [H0 H1].
  change (2 ^ Z.of_nat 7) with 128 in H1. unfold mod7. lia.
Qed.

Lemma read_bits_4 (bools : list bool) (i : nat) :
  0 <= fst (read_bits bools 4 0 i) <= 15.
Proof.
  destruct (read_bits_bound bools 4 0 i ltac:(lia)) as [H0 H1].
  change (2 ^ Z.of_nat 4) with 16 in H1. lia.
Qed.

Lemma read_egos_spec (bools : list bool) (n : nat) (acc : list Z) (i : nat) :
  exists mods, fst (read_egos bools n acc i) = acc ++ mods
               /\ length mods = n /\ Forall mod7 mods.
Proof.
  revert acc i. induction n as [|n IH]; intros acc i.
  - exists []. simpl. now rewrite app_nil_r.
  - cbn [read_egos]. pose proof (read_bits_7 bools i) as H7.
    destruct (read_bits bools 7 0 i) as [ego_mod i'].
    destruct (IH (acc ++ [ego_mod]) i') as (mods & -> & Hlen & Hall).
    exists (ego_mod :: mods). rewrite <- app_assoc. simpl.
    repeat split; [lia |]. constructor; assumption.
Qed.

(** What [read_slot] returns: a 7-bit modulus, a 4-bit slot type and five
    7-bit moduli. *)
Lemma read_slot_spec (bools : list bool) (i : nat) :
  exists p t e1 e2 e3 e4 e5 i',
    read_slot bools i = (p, t, [e1; e2; e3; e4; e5], i')
    /\ mod7 p /\ 0 <= t <= 15
    /\ mod7 e1 /\ mod7 e2 /\ mod7 e3 /\ mod7 e4 /\ mod7 e5.
Proof.
  unfold read_slot.
  pose proof (read_bits_7 bools i) as Hp.
  destruct (read_bits bools 7 0 i) as [p i1].
  pose proof (read_bits_4 bools i1) as Ht.
  destruct (read_bits bools 4 0 i1) as [t i2].
  destruct (read_egos_spec bools 5 [] i2) as (mods & He & Hlen & Hall).
  destruct (read_egos bools 5 [] i2) as [ego_mods i3]. simpl in *. subst ego_mods.
  destruct mods as [|e1 [|e2 [|e3 [|e4 [|e5 [|? ?]]]]]]; try discriminate.
  repeat (apply Forall_cons_1 in Hall as [? Hall]).
  exists p, t, e1, e2, e3, e4, e5, i3.
  split; [reflexivity |]. unfold mod7 in *. repeat split; lia.
Qed.

Lemma validate_egos_in_range (egos : list Z) (had_errors : bool) :
  Forall (fun e => e = 0 \/ 20000 <= e <= 99999) egos ->
  validate_egos egos had_errors = (egos, had_errors).
Proof.
  intros Hall. unfold validate_egos. generalize (seq 0 (length egos)) as js.
  induction js as [|j js IH]; [reflexivity |].
  cbn [fold_left].
  assert (nth j egos 0 = 0 \/ 20000 <= nth j egos 0 <= 99999) as Hj.
  { destruct (Nat.lt_ge_cases j (length egos)) as [Hlt|Hge].
    - rewrite List.Forall_forall in Hall. apply Hall, nth_In, Hlt.
    - left. now apply nth_overflow. }
  replace ((0 <? nth j egos 0)
           && ((nth j egos 0 <? 20000) || (99999 <? nth j egos 0))) with false by lia.
  apply IH.
Qed.

Lemma validation_in_range (personality_id : Z) (egos : list Z) (slot_type : Z)
    (had_errors : bool) :
  personality_id = 0 \/ 10000 <= personality_id <= 99999 ->
  Forall (fun e => e = 0 \/ 20000 <= e <= 99999) egos ->
  0 <= slot_type <= 15 ->
  validation personality_id egos slot_type had_errors
  = (personality_id, egos, slot_type, had_errors).
Proof.
  intros Hp He Ht. unfold validation.
  replace ((0 <? personality_id)
           && ((personality_id <? 10000) || (99999 <? personality_id))) with false by lia.
  rewrite validate_egos_in_range by assumption.
  replace ((slot_type <? 0) || (15 <? slot_type)) with false by lia.
  reflexivity.
Qed.

End DecodeFields.

(** ** The slot loop of [decode] *)

Section DecodeLoop.
Import FormationDeckCode.

Lemma decode_slot_unvalidated (bools : list bool) (st : decode_state) (slot_num : Z) :
  decode_slot false bools st slot_num
  = {| formations := formations st
                     ++ emitted slot_num (fst (read_slot bools (bit_index st)));
       had_errors := had_errors st;
       bit_index := snd (read_slot bools (bit_index st)) |}.
Proof.
  unfold decode_slot, emitted, rebuild.
  destruct (read_slot bools (bit_index st)) as [[[p t] ego_mods] i']. cbn [fst snd].
  destruct ((0 <? p) || any _); [reflexivity | now rewrite app_nil_r].
Qed.

Lemma decode_slot_validate (bools : list bool) (st : decode_state) (slot_num : Z) :
  0 <= slot_num <= 12 ->
  decode_slot true bools st slot_num = decode_slot false bools st slot_num.
Proof.
  intros Hn. unfold decode_slot.
  destruct (read_slot_spec bools (bit_index st))
    as (p & t & e1 & e2 & e3 & e4 & e5 & i' & -> & Hp & Ht & H1 & H2 & H3 & H4 & H5).
  rewrite validation_in_range; [reflexivity | | | assumption].
  - unfold mod7 in Hp. destruct (Z.ltb_spec 0 p); lia.
  - unfold mod7 in *. cbn [map].
    repeat (constructor; [match goal with |- context [0 <? ?e] =>
                            destruct (Z.ltb_spec 0 e); lia end |]).
    constructor.
Qed.

Lemma decode_loop_validate (bools : list bool) (ns : list Z) (st : decode_state) :
  Forall (fun n => 0 <= n <= 12) ns ->
  fold_left (decode_slot true bools) ns st = fold_left (decode_slot false bools) ns st.
Proof.
  intros Hns. revert st. induction Hns as [|n ns Hn _ IH]; intros st; [reflexivity |].
  cbn [fold_left]. now rewrite decode_slot_validate, IH.
Qed.

Lemma decode_loop_prefix (bools : list bool) (k : nat) :
  fold_left (decode_slot false bools) (seqZ 1 (Z.of_nat k))
            {| formations := []; had_errors := false; bit_index := 1 |}
  = {| formations :=
         flat_map (fun i => emitted (1 + Z.of_nat i) (wire_fields bools i)) (seq 0 k);
       had_errors := false;
       bit_index := cursor bools k |}.
Proof.
  induction k as [|k IH]; [reflexivity |].
  rewrite seqZ_S, fold_left_app, IH, seq_S, flat_map_app. cbn [fold_left].
  rewrite decode_slot_unvalidated. cbn [formations bit_index had_errors flat_map cursor].
  unfold wire_fields. now rewrite app_nil_r.
Qed.

Lemma decode_bools_spec (validate : bool) (bools : list bool) :
  decode_bools validate bools
  = {| formations :=
         flat_map (fun i => emitted (1 + Z.of_nat i) (wire_fields bools i)) (seq 0 12);
       had_errors := false;
       bit_index := cursor bools 12 |}.
Proof.
  unfold decode_bools. rewrite <- (decode_loop_prefix bools 12).
  destruct validate; [| reflexivity].
  apply decode_loop_validate. apply Forall_seqZ. intros; lia.
Qed.

Context `{C : Codecs}.

Lemma decompress_total (s : string) :
  exists t, TextCompressionUtility.decompress s = Ok t.
Proof.
  unfold TextCompressionUtility.decompress.
  destruct (str_empty s); [eauto |].
  destruct (b64decode s) as [bs|]; cbn; [| eauto].
  destruct (gzip_read bs) as [ds|]; cbn; [| eauto].
  destruct (utf8_decode ds); cbn; eauto.
Qed.

Lemma from_base64_total (s : string) (n : Z) :
  exists bools, BoolListBase64Converter.from_base64 s n = Ok bools.
Proof.
  unfold BoolListBase64Converter.from_base64.
  destruct (str_empty s); [eauto |].
  destruct (b64decode s); eauto.
Qed.

(** [decode] is the slot loop run on [wire_bits]; on the early exits the
    loop would have produced the same empty result. *)
Lemma decode_spec (encoded : string) (validate : bool) :
  decode encoded validate
  = Ok (formations (decode_bools validate (wire_bits encoded)),
        had_errors (decode_bools validate (wire_bits encoded))).
Proof.
  assert (forall v, (formations (decode_bools v []), had_errors (decode_bools v []))
                    = ([], false)) as Hnil by (intros []; reflexivity).
  unfold decode, wire_bits.
  destruct (str_empty encoded) eqn:He.
  - unfold TextCompressionUtility.decompress. rewrite He.
    cbn. now rewrite Hnil.
  - destruct (decompress_total encoded) as [inner ->]. cbn [mbind result_bind].
    destruct (str_empty inner) eqn:Hi.
    + unfold BoolListBase64Converter.from_base64. rewrite Hi. now rewrite Hnil.
    + destruct (from_base64_total inner 553) as [bools ->]. cbn [mbind result_bind].
      destruct bools; [now rewrite Hnil | reflexivity].
Qed.

End DecodeLoop.

(** ** What [decode] returns *)

Section DecodeResults.
Import FormationDeckCode.

Lemma wire_fields_spec (bools : list bool) (k : nat) :
  exists p t e1 e2 e3 e4 e5,
    wire_fields bools k = (p, t, [e1; e2; e3; e4; e5])
    /\ mod7 p /\ 0 <= t <= 15
    /\ mod7 e1 /\ mod7 e2 /\ mod7 e3 /\ mod7 e4 /\ mod7 e5.
Proof.
  unfold wire_fields.
  destruct (read_slot_spec bools (cursor bools k))
    as (p & t & e1 & e2 & e3 & e4 & e5 & i' & -> & H).
  exists p, t, e1, e2, e3, e4, e5. split; [reflexivity | exact H].
Qed.

Lemma emitted_slot (n : Z) (fields : Z * Z * list Z) (f : FormationDetailInfo) :
  In f (emitted n fields) -> slot f = n.
Proof.
  unfold emitted. destruct fields as [[p t] ego_mods].
  destruct ((0 <? p) || any _); simpl; [| tauto].
  intros [<- | []]. reflexivity.
Qed.

Lemma any_rebuilt (n : Z) (ego_mods : list Z) :
  0 <= n -> Forall mod7 ego_mods ->
  any (map (rebuild 20000 n) ego_mods) = true <-> Exists (fun e => 0 < e) ego_mods.
Proof.
  intros Hn Hall. unfold any. rewrite existsb_exists. split.
  - intros (e & Hin & Hne). apply in_map_iff in Hin as (m & <- & Hin).
    apply List.Exists_exists. exists m. split; [assumption |].
    unfold rebuild in Hne. destruct (Z.ltb_spec 0 m); [assumption | discriminate].
  - intros Hex. apply List.Exists_exists in Hex as (m & Hin & Hm).
    exists (rebuild 20000 n m). split; [now apply in_map |].
    unfold rebuild. destruct (Z.ltb_spec 0 m); [| lia].
    destruct (Z.eqb_spec (m + 20000 + n * 100) 0); [lia | reflexivity].
Qed.

Lemma emitted_nonempty (n : Z) (p t : Z) (ego_mods : list Z) :
  0 <= n -> Forall mod7 ego_mods ->
  emitted n (p, t, ego_mods) <> [] <-> 0 < p \/ Exists (fun e => 0 < e) ego_mods.
Proof.
  intros Hn Hall. rewrite <- (any_rebuilt n) by assumption.
  unfold emitted. change (fun ego_mod : Z => if 0 <? ego_mod then _ else 0)
    with (rebuild 20000 n).
  destruct (Z.ltb_spec 0 p); destruct (any (map (rebuild 20000 n) ego_mods));
    cbn [orb]; split; intros Hx; try discriminate; try tauto; try lia.
Qed.

Lemma emitted_in_range (n : Z) (p t e1 e2 e3 e4 e5 : Z) :
  1 <= n <= 12 -> mod7 p -> 0 <= t <= 15 ->
  mod7 e1 -> mod7 e2 -> mod7 e3 -> mod7 e4 -> mod7 e5 ->
  Forall in_wire_range (emitted n (p, t, [e1; e2; e3; e4; e5])).
Proof.
  unfold mod7. intros Hn Hp Ht H1 H2 H3 H4 H5. unfold emitted.
  destruct ((0 <? p) || any _); [| constructor].
  constructor; [| constructor]. unfold in_wire_range, rebuild; cbn.
  repeat split; try lia.
  - destruct (Z.ltb_spec 0 p); lia.
  - repeat (constructor; [match goal with |- context [0 <? ?e] =>
                            destruct (Z.ltb_spec 0 e); lia end |]).
    constructor.
Qed.

Lemma decoded_in_range (bools : list bool) (k : nat) :
  (k <= 12)%nat ->
  Forall in_wire_range
    (flat_map (fun i => emitted (1 + Z.of_nat i) (wire_fields bools i)) (seq 0 k)).
Proof.
  intros Hk. apply List.Forall_forall. intros f Hin.
  apply in_flat_map in Hin as (i & Hi & Hin). apply in_seq in Hi.
  destruct (wire_fields_spec bools i)
    as (p & t & e1 & e2 & e3 & e4 & e5 & Hw & Hp & Ht & H1 & H2 & H3 & H4 & H5).
  rewrite Hw in Hin.
  pose proof (emitted_in_range (1 + Z.of_nat i) p t e1 e2 e3 e4 e5
                ltac:(lia) Hp Ht H1 H2 H3 H4 H5) as Hall.
  rewrite List.Forall_forall in Hall. now apply Hall.
Qed.

Lemma decoded_sorted (bools : list bool) (k : nat) :
  StronglySorted Z.lt
    (map slot (flat_map (fun i => emitted (1 + Z.of_nat i) (wire_fields bools i))
                        (seq 0 k)))
  /\ Forall (fun s => s <= Z.of_nat k)
       (map slot (flat_map (fun i => emitted (1 + Z.of_nat i) (wire_fields bools i))
                           (seq 0 k))).
Proof.
  induction k as [|k [IHs IHb]]; [split; constructor |].
  rewrite seq_S, flat_map_app, map_app. cbn [flat_map]. rewrite app_nil_r.
  assert (Forall (fun s => s = 1 + Z.of_nat k)
            (map slot (emitted (1 + Z.of_nat k) (wire_fields bools k)))) as Hlast.
  { apply List.Forall_forall. intros s Hs. apply in_map_iff in Hs as (f & <- & Hf).
    eapply emitted_slot, Hf. }
  assert (length (emitted (1 + Z.of_nat k) (wire_fields bools k)) <= 1)%nat as Hone.
  { unfold emitted. destruct (wire_fields bools k) as [[p t] ems].
    destruct ((0 <? p) || any _); simpl; lia. }
  split.
  - apply StronglySorted_app. repeat split; [| assumption |].
    + intros s1 s2 H1 H2. apply list_elem_of_In in H1, H2.
      rewrite List.Forall_forall in IHb, Hlast.
      specialize (IHb _ H1). specialize (Hlast _ H2). lia.
    + destruct (emitted _ _) as [|f [|g l]]; simpl in *; try lia;
        repeat constructor.
  - apply Forall_app. split.
    + eapply Forall_impl; [exact IHb |]. intros s Hs. simpl in Hs. lia.
    + eapply Forall_impl; [exact Hlast |]. intros s Hs. simpl in Hs. lia.
Qed.

End DecodeResults.

(** C3.  With [validate=true], [decode] returns [hadErrors = false] for every
    input string.  Every formation it returns has a personality ID that is 0
    or in [10101, 11327], equipment IDs that are 0 or in [20101, 21327] and a
    slot type in [0, 15]; the validation block changes none of the values
    reconstructed for any of the twelve slots, so the result is the one
    obtained without validation. *)
Theorem decode_validate_no_errors `{C : Codecs} (encoded : string) :
  exists out,
    FormationDeckCode.decode encoded true = Ok (out, false)
    /\ Forall in_wire_range out
    /\ FormationDeckCode.decode encoded false = Ok (out, false)
    /\ forall (k : nat) (had_errors : bool), (k < 12)%nat ->
         let '(p, t, ego_mods) := wire_fields (wire_bits encoded) k in
         let n := 1 + Z.of_nat k in
         FormationDeckCode.validation
           (rebuild 10000 n p) (map (rebuild 20000 n) ego_mods) t had_errors
         = (rebuild 10000 n p, map (rebuild 20000 n) ego_mods, t, had_errors).
Proof.
  rewrite !decode_spec, !decode_bools_spec. cbn [FormationDeckCode.formations
    FormationDeckCode.had_errors].
  eexists. split; [reflexivity |]. split; [apply decoded_in_range; lia |].
  split; [reflexivity |].
  intros k he Hk.
  destruct (wire_fields_spec (wire_bits encoded) k)
    as (p & t & e1 & e2 & e3 & e4 & e5 & -> & Hp & Ht & H1 & H2 & H3 & H4 & H5).
  unfold mod7, rebuild in *. cbn zeta.
  apply validation_in_range; [| | assumption].
  - destruct (Z.ltb_spec 0 p); lia.
  - cbn [map].
    repeat (constructor; [match goal with |- context [0 <? ?e] =>
                            destruct (Z.ltb_spec 0 e); lia end |]).
    constructor.
Qed.

(** C5.  For every input of [decode] and every slot position 1..12, the
    output holds a formation for that position if and only if the
    personality modulus read for it is positive or one of its five equipment
    moduli is; an all-zero slot is left out, and the formations returned are
    in ascending slot order. *)
Theorem decode_emits_nonzero_slots `{C : Codecs} (encoded : string) (validate : bool) :
  exists out had_errors,
    FormationDeckCode.decode encoded validate = Ok (out, had_errors)
    /\ (forall n : Z, 1 <= n <= 12 ->
          let '(p, _, ego_mods) := wire_fields (wire_bits encoded) (Z.to_nat (n - 1)) in
          (exists f, In f out /\ slot f = n)
          <-> (0 < p \/ Exists (fun e => 0 < e) ego_mods))
    /\ StronglySorted Z.lt (map slot out).
Proof.
  rewrite decode_spec, decode_bools_spec. cbn [FormationDeckCode.formations
    FormationDeckCode.had_errors].
  eexists _, _. split; [reflexivity |]. split; [| apply decoded_sorted].
  intros n Hn. set (k := Z.to_nat (n - 1)).
  assert (n = 1 + Z.of_nat k) as Hk by lia.
  destruct (wire_fields_spec (wire_bits encoded) k)
    as (p & t & e1 & e2 & e3 & e4 & e5 & Hw & Hp & Ht & H1 & H2 & H3 & H4 & H5).
  rewrite Hw.
  assert (Forall mod7 [e1; e2; e3; e4; e5]) as Hall
    by (repeat (constructor; [assumption |]); constructor).
  rewrite <- (emitted_nonempty n p t) by (assumption || lia).
  rewrite <- Hw. split.
  - intros (f & Hin & Hslot). apply in_flat_map in Hin as (i & Hi & Hin).
    pose proof (emitted_slot _ _ _ Hin) as Hs.
    assert (i = k) as -> by lia. rewrite <- Hk in Hin.
    intros Hnil. rewrite Hnil in Hin. exact Hin.
  - intros Hne. destruct (emitted n (wire_fields (wire_bits encoded) k)) as [|f l] eqn:He;
      [congruence |].
    assert (In f (emitted n (wire_fields (wire_bits encoded) k))) as Hf
      by (rewrite He; now left).
    exists f. split; [| eapply emitted_slot, Hf].
    apply in_flat_map. exists k. split; [apply in_seq; lia | now rewrite <- Hk].
Qed.

(** C9.  [decompress] never raises: when the base-64 step, the gzip step or
    the UTF-8 step fails it returns the empty string.  [decode] never raises
    either, and returns no formation and [hadErrors = false] whenever
    [decompress] or [from_base64] hands back an empty result. *)
Theorem malformed_input_soft_fails `{C : Codecs} (encoded : string) (validate : bool) :
  (exists text, TextCompressionUtility.decompress encoded = Ok text)
  /\ ((exists e, b64decode encoded = Raise e) ->
      TextCompressionUtility.decompress encoded = Ok EmptyString)
  /\ (forall bs, b64decode encoded = Ok bs -> (exists e, gzip_read bs = Raise e) ->
      TextCompressionUtility.decompress encoded = Ok EmptyString)
  /\ (forall bs ds, b64decode encoded = Ok bs -> gzip_read bs = Ok ds ->
      (exists e, utf8_decode ds = Raise e) ->
      TextCompressionUtility.decompress encoded = Ok EmptyString)
  /\ (exists r, FormationDeckCode.decode encoded validate = Ok r)
  /\ (TextCompressionUtility.decompress encoded = Ok EmptyString ->
      FormationDeckCode.decode encoded validate = Ok ([], false))
  /\ (forall inner_b64,
        TextCompressionUtility.decompress encoded = Ok inner_b64 ->
        BoolListBase64Converter.from_base64 inner_b64 553 = Ok [] ->
        FormationDeckCode.decode encoded validate = Ok ([], false)).
Proof.
  split; [apply decompress_total |].
  repeat split.
  - intros [e He]. unfold TextCompressionUtility.decompress.
    destruct (str_empty encoded); [reflexivity | now rewrite He].
  - intros bs Hb [e He]. unfold TextCompressionUtility.decompress.
    destruct (str_empty encoded); [reflexivity |].
    rewrite Hb. cbn. now rewrite He.
  - intros bs ds Hb Hg [e He]. unfold TextCompressionUtility.decompress.
    destruct (str_empty encoded); [reflexivity |].
    rewrite Hb. cbn. rewrite Hg. cbn. now rewrite He.
  - rewrite decode_spec. eauto.
  - intros Hd. unfold FormationDeckCode.decode.
    destruct (str_empty encoded); [reflexivity |].
    rewrite Hd. reflexivity.
  - intros inner Hd Hf. unfold FormationDeckCode.decode.
    destruct (str_empty encoded); [reflexivity |].
    rewrite Hd. cbn [mbind result_bind].
    destruct (str_empty inner); [reflexivity |]. rewrite Hf. reflexivity.
Qed.

(** ** The bitstream of the standard encoding *)

Section EncodeBits.
Import FormationDeckCode BoolListBase64Converter.

Lemma fold_left_extend {A B} (g : A -> list B) (l : list A) (acc : list B) :
  fold_left (fun acc x => acc ++ g x) l acc = acc ++ flat_map g l.
Proof.
  revert acc. induction l as [|x l IH]; intros acc; simpl.
  - now rewrite app_nil_r.
  - now rewrite IH, <- app_assoc.
Qed.

Lemma length_int_to_bools (value : Z) (bit_count : nat) :
  length (int_to_bools value bit_count) = bit_count.
Proof. unfold int_to_bools. now rewrite length_map, length_rev, length_seq. Qed.

(** [_int_to_bools] writes the field most significant bit first. *)
Lemma nth_int_to_bools (value : Z) (bit_count i : nat) :
  (i < bit_count)%nat ->
  nth i (int_to_bools value bit_count) false
  = Z.testbit value (Z.of_nat (bit_count - 1 - i)).
Proof.
  intros Hi. unfold int_to_bools.
  rewrite (nth_indep _ false
             ((fun i => negb (Z.land (Z.shiftr value (Z.of_nat i)) 1 =? 0)) 0%nat))
    by now rewrite length_map, length_rev, length_seq.
  rewrite (map_nth (fun i => negb (Z.land (Z.shiftr value (Z.of_nat i)) 1 =? 0))).
  rewrite rev_nth by (rewrite length_seq; lia).
  rewrite length_seq, seq_nth by lia. cbn [Nat.add].
  replace (bit_count - S i)%nat with (bit_count - 1 - i)%nat by lia.
  change 1 with (Z.shiftl 1 0) at 1. rewrite land_mask_testbit by lia.
  rewrite Z.shiftr_spec by lia. f_equal; lia.
Qed.

Lemma int_to_bools_succ (value : Z) (bit_count : nat) :
  int_to_bools value (S bit_count)
  = Z.testbit value (Z.of_nat bit_count) :: int_to_bools value bit_count.
Proof.
  unfold int_to_bools. rewrite seq_S, rev_app_distr. cbn [rev app map Nat.add].
  f_equal. change 1 with (Z.shiftl 1 0) at 1. rewrite land_mask_testbit by lia.
  rewrite Z.shiftr_spec by lia. f_equal; lia.
Qed.

Lemma slot_bits_fields (m : gmap Z FormationDetailInfo) (slot_num : Z) :
  slot_bits m slot_num = field_bits (slot_values m slot_num).
Proof.
  unfold slot_bits, slot_values, field_bits.
  destruct (m !! slot_num); now rewrite fold_left_extend, <- app_assoc.
Qed.

Lemma length_slot_bits (m : gmap Z FormationDetailInfo) (slot_num : Z) :
  length (slot_bits m slot_num) = 46%nat.
Proof.
  rewrite slot_bits_fields. unfold slot_values, field_bits.
  destruct (m !! slot_num); cbn [flat_map];
    now rewrite !length_app, !length_int_to_bools.
Qed.

Lemma all_bits_slots (fs : list FormationDetailInfo) :
  all_bits fs = true :: flat_map (slot_bits (formation_map fs)) (seqZ 1 12).
Proof. unfold all_bits. now rewrite fold_left_extend. Qed.

Lemma flat_map_eq_in {A B} (g h : A -> list B) (l : list A) :
  (forall x, In x l -> g x = h x) -> flat_map g l = flat_map h l.
Proof.
  induction l as [|x l IH]; intros Hgh; [reflexivity |].
  cbn [flat_map]. rewrite Hgh by now left.
  rewrite IH; [reflexivity |]. intros y Hy. apply Hgh. now right.
Qed.

Lemma length_flat_map_const {A B} (g : A -> list B) (n : nat) (l : list A) :
  (forall x, length (g x) = n) -> length (flat_map g l) = (length l * n)%nat.
Proof.
  intros Hg. induction l as [|x l IH]; simpl; [reflexivity |].
  rewrite length_app, Hg, IH. lia.
Qed.

Lemma length_all_bits (fs : list FormationDetailInfo) : length (all_bits fs) = 553%nat.
Proof.
  rewrite all_bits_slots. cbn [length].
  rewrite (length_flat_map_const _ 46) by apply length_slot_bits.
  reflexivity.
Qed.

Lemma all_bits_nonempty (fs : list FormationDetailInfo) : list_empty (all_bits fs) = false.
Proof. now rewrite all_bits_slots. Qed.

(** The last byte of a 553-bit buffer only holds bit 552, in its top bit. *)
Lemma last_byte_553 (bools : list bool) :
  length bools = 553%nat ->
  nth 69 (bools_to_bytes bools) 0 = if nth 552 bools false then 128 else 0.
Proof.
  intros Hlen. rewrite nth_bools_to_bytes by (rewrite Hlen; cbn; lia).
  unfold byte_val. rewrite Hlen. cbn.
  now destruct (nth 552 bools false).
Qed.

End EncodeBits.

(** ** The slot map of [encode] *)

Section SlotMap.
Import FormationDeckCode BoolListBase64Converter.

Lemma formation_map_snoc (fs : list FormationDetailInfo) (f : FormationDetailInfo) :
  formation_map (fs ++ [f]) = <[slot f := f]> (formation_map fs).
Proof. unfold formation_map. now rewrite fold_left_app. Qed.

Lemma formation_map_lookup (fs : list FormationDetailInfo) (n : Z) :
  formation_map fs !! n = last_with_slot n fs.
Proof.
  unfold last_with_slot. induction fs as [|f fs IH] using rev_ind; [reflexivity |].
  rewrite formation_map_snoc, List.filter_app, last_app. cbn [List.filter].
  destruct (Z.eqb_spec (slot f) n) as [->|Hne].
  - now rewrite lookup_insert_eq.
  - now rewrite lookup_insert_ne.
Qed.

Lemma all_bits_ext (fs1 fs2 : list FormationDetailInfo) :
  (forall n, 1 <= n <= 12 -> last_with_slot n fs1 = last_with_slot n fs2) ->
  all_bits fs1 = all_bits fs2.
Proof.
  intros Hext. rewrite !all_bits_slots. f_equal.
  assert (Forall (fun n => 1 <= n <= 12) (seqZ 1 12)) as Hall
    by (apply Forall_seqZ; intros; lia).
  induction Hall as [|n ns Hn _ IH]; [reflexivity |].
  cbn [flat_map]. rewrite IH. f_equal.
  unfold slot_bits. now rewrite !formation_map_lookup, Hext.
Qed.

Lemma last_with_slot_other (n : Z) (fs1 fs2 : list FormationDetailInfo)
    (f : FormationDetailInfo) :
  slot f <> n -> last_with_slot n (fs1 ++ f :: fs2) = last_with_slot n (fs1 ++ fs2).
Proof.
  intros Hne. unfold last_with_slot. rewrite !List.filter_app. cbn [List.filter].
  destruct (Z.eqb_spec (slot f) n); [contradiction | reflexivity].
Qed.

Lemma last_with_slot_shadowed (n : Z) (fs1 fs2 fs3 : list FormationDetailInfo)
    (f g : FormationDetailInfo) :
  slot f = slot g ->
  last_with_slot n (fs1 ++ f :: fs2 ++ g :: fs3)
  = last_with_slot n (fs1 ++ fs2 ++ g :: fs3).
Proof.
  intros Hfg. destruct (Z.eq_dec (slot f) n) as [Hn|Hn];
    [| now apply last_with_slot_other].
  unfold last_with_slot.
  change (f :: fs2 ++ g :: fs3) with ([f] ++ fs2 ++ g :: fs3).
  rewrite !List.filter_app. cbn [List.filter].
  replace (slot g =? n) with true by lia.
  rewrite !app_assoc, !last_app_cons. reflexivity.
Qed.

Lemma all_bits_out_of_range (fs : list FormationDetailInfo) :
  Forall (fun f => ~ 1 <= slot f <= 12) fs ->
  all_bits fs = true :: replicate 552 false.
Proof.
  intros Hout.
  assert (forall n, 1 <= n <= 12 -> last_with_slot n fs = None) as Hnone.
  { intros n Hn. unfold last_with_slot.
    induction Hout as [|f fs Hf _ IH]; [reflexivity |].
    cbn [List.filter]. destruct (Z.eqb_spec (slot f) n); [lia | exact IH]. }
  rewrite (all_bits_ext fs []); [reflexivity |].
  intros n Hn. now rewrite Hnone.
Qed.

Context `{C : Codecs} `{!CodecLaws C}.

Lemma to_base64_nonempty (bools : list bool) :
  bools <> [] -> str_empty (to_base64 bools) = false.
Proof.
  intros Hne. unfold to_base64. destruct bools as [|b bools]; [contradiction |].
  cbn [list_empty].
  destruct (b64encode _) eqn:Hs; [| reflexivity].
  exfalso. eapply b64encode_nonempty; [| exact Hs].
  intros Hnil. apply (f_equal (@length Z)) in Hnil.
  rewrite length_bools_to_bytes in Hnil. cbn [length] in Hnil. lia.
Qed.

(** [compress] on a non-empty text that the UTF-8 codec accepts. *)
Lemma compress_encodable (now : Z) (text : string) (text_bytes : list Z) :
  str_empty text = false ->
  utf8_encode text = Ok text_bytes ->
  TextCompressionUtility.compress now text
  = Ok (b64encode (gzip_write now text_bytes))
  /\ str_empty (b64encode (gzip_write now text_bytes)) = false
  /\ TextCompressionUtility.decompress (b64encode (gzip_write now text_bytes))
     = Ok text.
Proof.
  intros Ht Hu. unfold TextCompressionUtility.compress. rewrite Ht, Hu.
  assert (str_empty (b64encode (gzip_write now text_bytes)) = false) as Hne.
  { destruct (b64encode _) eqn:Hs; [| reflexivity].
    exfalso. eapply b64encode_nonempty; [| exact Hs]. apply gzip_write_nonempty. }
  split; [reflexivity |]. split; [exact Hne |].
  pose proof (utf8_encode_bytes _ _ Hu) as Hbytes.
  unfold TextCompressionUtility.decompress. rewrite Hne.
  rewrite b64_roundtrip by now apply gzip_write_bytes.
  cbn [mbind result_bind]. rewrite gzip_roundtrip by assumption.
  cbn [mbind result_bind try_except]. now rewrite (utf8_roundtrip _ _ Hu).
Qed.

(** [compress] on base-64 text. *)
Lemma compress_b64 (now : Z) (bs : list Z) :
  bs <> [] ->
  exists code,
    TextCompressionUtility.compress now (b64encode bs) = Ok code
    /\ str_empty code = false
    /\ TextCompressionUtility.decompress code = Ok (b64encode bs).
Proof.
  intros Hbs. destruct (utf8_encode_b64 bs) as [text_bytes Hu].
  assert (str_empty (b64encode bs) = false) as Ht.
  { destruct (b64encode bs) eqn:Hs; [| reflexivity].
    exfalso. eapply b64encode_nonempty; eassumption. }
  destruct (compress_encodable now _ _ Ht Hu) as (Hc & Hne & Hd).
  eauto.
Qed.

Lemma decompress_compress_b64 (now : Z) (bs : list Z) (code : string) :
  TextCompressionUtility.compress now (b64encode bs) = Ok code ->
  TextCompressionUtility.decompress code = Ok (b64encode bs).
Proof.
  destruct (str_empty (b64encode bs)) eqn:Ht.
  - unfold TextCompressionUtility.compress. rewrite Ht. intros [= <-].
    destruct (b64encode bs); [reflexivity | discriminate].
  - destruct (utf8_encode_b64 bs) as [text_bytes Hu].
    destruct (compress_encodable now _ _ Ht Hu) as (-> & _ & Hd).
    now intros [= <-].
Qed.

Lemma bools_to_bytes_nonempty (bools : list bool) :
  bools <> [] -> bools_to_bytes bools <> [].
Proof.
  intros Hne Hnil. apply (f_equal (@length Z)) in Hnil.
  rewrite length_bools_to_bytes in Hnil. destruct bools; [contradiction |].
  cbn [length] in Hnil. lia.
Qed.

(** The standard path on a non-empty list. *)
Lemma encode_standard (now : Z) (fs : list FormationDetailInfo) :
  fs <> [] ->
  exists code,
    encode now fs false = Ok code
    /\ str_empty code = false
    /\ TextCompressionUtility.decompress code
       = Ok (b64encode (bools_to_bytes (all_bits fs))).
Proof.
  intros Hne. unfold encode. destruct fs as [|f fs]; [contradiction |].
  cbn [list_empty mbind result_bind]. unfold to_base64.
  rewrite all_bits_nonempty.
  apply compress_b64, bools_to_bytes_nonempty. now rewrite all_bits_slots.
Qed.

End SlotMap.

(** ** Reading back what [encode] wrote *)

Section ReadBack.
Import FormationDeckCode BoolListBase64Converter.

Lemma mod_pow2_succ (v : Z) (k : nat) :
  v mod 2 ^ Z.of_nat (S k)
  = (if Z.testbit v (Z.of_nat k) then 1 else 0) * 2 ^ Z.of_nat k + v mod 2 ^ Z.of_nat k.
Proof.
  rewrite Nat2Z.inj_succ, Z.pow_succ_r, (Z.mul_comm 2) by lia.
  assert (0 < 2 ^ Z.of_nat k) by (apply Z.pow_pos_nonneg; lia).
  rewrite Z.rem_mul_r by lia.
  pose proof (Z.testbit_spec' v (Z.of_nat k) ltac:(lia)) as Hb.
  rewrite <- Hb. destruct (Z.testbit v (Z.of_nat k)); cbn [Z.b2z]; lia.
Qed.

Lemma read_bits_int_to_bools (pre post : list bool) (v : Z) (k : nat) (acc : Z) :
  read_bits (pre ++ int_to_bools v k ++ post) k acc (length pre)
  = (acc * 2 ^ Z.of_nat k + v mod 2 ^ Z.of_nat k, (length pre + k)%nat).
Proof.
  revert pre acc. induction k as [|k IH]; intros pre acc.
  - cbn [read_bits]. rewrite Z.mod_1_r. f_equal; [cbn; lia | lia].
  - cbn [read_bits]. rewrite int_to_bools_succ.
    destruct (Nat.ltb_spec (length pre) (length (pre ++ (Z.testbit v (Z.of_nat k)
                :: int_to_bools v k) ++ post))) as [_|Hge].
    2:{ rewrite length_app in Hge. cbn in Hge. lia. }
    rewrite app_nth2, Nat.sub_diag by lia. cbn [app nth].
    rewrite lor_double_bit.
    replace (pre ++ Z.testbit v (Z.of_nat k) :: int_to_bools v k ++ post)
      with ((pre ++ [Z.testbit v (Z.of_nat k)]) ++ int_to_bools v k ++ post)
      by now rewrite <- app_assoc.
    replace (S (length pre)) with (length (pre ++ [Z.testbit v (Z.of_nat k)]))
      by (rewrite length_app; cbn; lia).
    rewrite IH, mod_pow2_succ, length_app. cbn [length].
    rewrite Nat2Z.inj_succ, Z.pow_succ_r by lia.
    f_equal; lia.
Qed.

Lemma read_egos_int_to_bools (pre post : list bool) (e_mods acc : list Z) :
  read_egos (pre ++ flat_map (fun e_mod => int_to_bools e_mod 7) e_mods ++ post)
            (length e_mods) acc (length pre)
  = (acc ++ map (fun e_mod => e_mod mod 128) e_mods,
     (length pre + 7 * length e_mods)%nat).
Proof.
  revert pre acc. induction e_mods as [|e e_mods IH]; intros pre acc.
  - cbn. rewrite app_nil_r. f_equal. lia.
  - cbn [length read_egos flat_map]. rewrite <- (app_assoc (int_to_bools e 7)).
    rewrite read_bits_int_to_bools.
    rewrite (app_assoc pre (int_to_bools e 7)).
    replace (length pre + 7)%nat with (length (pre ++ int_to_bools e 7))
      by now rewrite length_app, length_int_to_bools.
    rewrite IH, length_app, length_int_to_bools, <- app_assoc.
    change (2 ^ Z.of_nat 7) with 128. cbn [map app Z.mul Z.add].
    f_equal. lia.
Qed.

Lemma read_slot_field_bits (pre post : list bool) (p_mod s_type : Z) (e_mods : list Z) :
  length e_mods = 5%nat ->
  read_slot (pre ++ field_bits (p_mod, s_type, e_mods) ++ post) (length pre)
  = (on_wire (p_mod, s_type, e_mods), (length pre + 46)%nat).
Proof.
  intros Hlen. unfold read_slot, field_bits, on_wire.
  rewrite <- !app_assoc.
  rewrite read_bits_int_to_bools.
  rewrite (app_assoc pre (int_to_bools p_mod 7)).
  replace (length pre + 7)%nat with (length (pre ++ int_to_bools p_mod 7))
    by now rewrite length_app, length_int_to_bools.
  rewrite read_bits_int_to_bools.
  rewrite (app_assoc _ (int_to_bools s_type 4)).
  replace (length (pre ++ int_to_bools p_mod 7) + 4)%nat
    with (length ((pre ++ int_to_bools p_mod 7) ++ int_to_bools s_type 4))
    by now rewrite !length_app, !length_int_to_bools.
  pose proof (read_egos_int_to_bools
                ((pre ++ int_to_bools p_mod 7) ++ int_to_bools s_type 4) post e_mods [])
    as He.
  rewrite Hlen in He. rewrite He.
  rewrite !length_app, !length_int_to_bools.
  change (2 ^ Z.of_nat 7) with 128. change (2 ^ Z.of_nat 4) with 16.
  cbn [app Z.mul Z.add]. f_equal. lia.
Qed.

Lemma length_slot_values (m : gmap Z FormationDetailInfo) (n : Z) :
  length (snd (slot_values m n)) = 5%nat.
Proof. unfold slot_values. now destruct (m !! n). Qed.

(** The decoder's cursor and fields on the bitstream of [encode]. *)
Lemma read_back_all_bits (fs : list FormationDetailInfo) (k : nat) :
  (k < 12)%nat ->
  cursor (all_bits fs) k = (1 + 46 * k)%nat
  /\ read_slot (all_bits fs) (cursor (all_bits fs) k)
     = (on_wire (slot_values (formation_map fs) (1 + Z.of_nat k)),
        (1 + 46 * S k)%nat).
Proof.
  intros Hk.
  assert (forall j, (j < 12)%nat -> cursor (all_bits fs) j = (1 + 46 * j)%nat ->
            read_slot (all_bits fs) (cursor (all_bits fs) j)
            = (on_wire (slot_values (formation_map fs) (1 + Z.of_nat j)),
               (1 + 46 * S j)%nat)) as Hstep.
  { intros j Hj Hc. rewrite Hc, all_bits_slots.
    replace 12 with (Z.of_nat j + (1 + (11 - Z.of_nat j))) by lia.
    rewrite seqZ_app, (seqZ_cons (1 + Z.of_nat j)) by lia.
    rewrite flat_map_app. cbn [flat_map]. rewrite slot_bits_fields.
    set (pre := true :: flat_map (slot_bits (formation_map fs)) (seqZ 1 (Z.of_nat j))).
    assert (length pre = (1 + 46 * j)%nat) as Hpre.
    { subst pre. cbn [length].
      rewrite (length_flat_map_const _ 46) by apply length_slot_bits.
      rewrite length_seqZ. lia. }
    rewrite <- Hpre.
    change (true :: flat_map (slot_bits (formation_map fs)) (seqZ 1 (Z.of_nat j)) ++ ?l)
      with (pre ++ l).
    destruct (slot_values (formation_map fs) (1 + Z.of_nat j)) as [[p t] es] eqn:Hv.
    rewrite read_slot_field_bits.
    - f_equal. lia.
    - pose proof (length_slot_values (formation_map fs) (1 + Z.of_nat j)) as Hl.
      now rewrite Hv in Hl. }
  assert (forall j, (j <= 12)%nat -> cursor (all_bits fs) j = (1 + 46 * j)%nat) as Hcur.
  { induction j as [|j IH]; intros Hj; [reflexivity |].
    cbn [cursor]. rewrite Hstep by (try apply IH; lia). cbn [snd]. lia. }
  split; [apply Hcur; lia | apply Hstep; [lia | apply Hcur; lia]].
Qed.

Lemma wire_fields_all_bits (fs : list FormationDetailInfo) (k : nat) :
  (k < 12)%nat ->
  wire_fields (all_bits fs) k = on_wire (slot_values (formation_map fs) (1 + Z.of_nat k)).
Proof.
  intros Hk. unfold wire_fields.
  destruct (read_back_all_bits fs k Hk) as [_ ->]. reflexivity.
Qed.

Context `{C : Codecs} `{!CodecLaws C}.

Lemma wire_bits_of_code (fs : list FormationDetailInfo) (code : string) :
  TextCompressionUtility.decompress code
  = Ok (b64encode (bools_to_bytes (all_bits fs))) ->
  wire_bits code = all_bits fs.
Proof.
  intros Hd. unfold wire_bits. rewrite Hd.
  assert (all_bits fs <> []) as Hbits by now rewrite all_bits_slots.
  pose proof (to_base64_nonempty _ Hbits) as Hinner.
  unfold to_base64 in Hinner. rewrite all_bits_nonempty in Hinner.
  unfold from_base64. rewrite Hinner, b64_roundtrip by apply bools_to_bytes_bytes.
  pose proof (bytes_to_bits_roundtrip (all_bits fs)) as Hr.
  rewrite length_all_bits in Hr. exact Hr.
Qed.

(** Decoding the standard encoding of any non-empty list. *)
Lemma decode_encode (now : Z) (fs : list FormationDetailInfo) (code : string)
    (validate : bool) :
  fs <> [] ->
  encode now fs false = Ok code ->
  decode code validate
  = Ok (flat_map (fun i => emitted (1 + Z.of_nat i)
                             (on_wire (slot_values (formation_map fs) (1 + Z.of_nat i))))
                 (seq 0 12), false).
Proof.
  intros Hne Henc.
  destruct (encode_standard now fs Hne) as (code' & Henc' & _ & Hd).
  rewrite Henc in Henc'. injection Henc' as <-.
  rewrite decode_spec, decode_bools_spec, (wire_bits_of_code fs code Hd).
  cbn [formations had_errors]. do 2 f_equal.
  apply flat_map_eq_in. intros i Hi. apply in_seq in Hi.
  now rewrite wire_fields_all_bits by lia.
Qed.

End ReadBack.

(** ** The reference codecs meet the contract *)

Section ReferenceLaws.
Import Reference.

Lemma char_sextet_char (s : Z) : 0 <= s < 64 -> char_sextet (sextet_char s) = Some s.
Proof.
  intros Hs.
  assert (forallb (fun s => match char_sextet (sextet_char s) with
                            | Some s' => s' =? s
                            | None => false
                            end) (seqZ 0 64) = true) as Hall by (vm_compute; reflexivity).
  rewrite forallb_forall in Hall.
  assert (In s (seqZ 0 64)) as Hin by (apply list_elem_of_In, elem_of_seqZ; lia).
  specialize (Hall s Hin).
  destruct (char_sextet (sextet_char s)) as [s'|]; [| discriminate].
  f_equal. lia.
Qed.

Lemma char_sextet_pad : char_sextet pad = None.
Proof. vm_compute. reflexivity. Qed.

Lemma decode_encode_chars (n : nat) (bs : list Z) :
  (length bs <= n)%nat -> Forall is_byte bs -> decode_chars (encode_chars bs) = Ok bs.
Proof.
  revert bs. induction n as [|n IH]; intros bs Hlen Hbs.
  - destruct bs; [reflexivity | cbn in Hlen; lia].
  - destruct bs as [|b0 [|b1 [|b2 bs]]]; [reflexivity | | |].
    + apply Forall_cons_1 in Hbs as [H0 _]. unfold is_byte in H0.
      cbn [encode_chars decode_chars].
      rewrite !char_sextet_char, !char_sextet_pad by lia. cbn.
      do 2 f_equal. lia.
    + apply Forall_cons_1 in Hbs as [H0 Hbs]. apply Forall_cons_1 in Hbs as [H1 _].
      unfold is_byte in H0, H1.
      cbn [encode_chars decode_chars].
      rewrite !char_sextet_char, !char_sextet_pad by lia. cbn.
      do 2 f_equal; [lia |]. f_equal. lia.
    + apply Forall_cons_1 in Hbs as [H0 Hbs]. apply Forall_cons_1 in Hbs as [H1 Hbs].
      apply Forall_cons_1 in Hbs as [H2 Hbs]. unfold is_byte in H0, H1, H2.
      cbn [encode_chars decode_chars].
      rewrite !char_sextet_char by lia.
      rewrite IH by (assumption || (cbn in Hlen; lia)).
      cbn [mbind result_bind].
      do 2 f_equal; [lia |]. f_equal; [lia |]. f_equal. lia.
Qed.

Lemma ref_b64_roundtrip (bs : list Z) :
  Forall is_byte bs -> ref_b64decode (ref_b64encode bs) = Ok bs.
Proof.
  intros Hbs. unfold ref_b64decode, ref_b64encode.
  rewrite list_ascii_of_string_of_list_ascii.
  now apply (decode_encode_chars (length bs)).
Qed.

Lemma ref_b64encode_nonempty (bs : list Z) : bs <> [] -> ref_b64encode bs <> EmptyString.
Proof.
  intros Hne. unfold ref_b64encode.
  destruct bs as [|b0 [|b1 [|b2 bs]]]; [contradiction | | |]; discriminate.
Qed.

Lemma code_point_byte (c : ascii) : is_byte (code_point c).
Proof.
  unfold is_byte, code_point. pose proof (N_ascii_bounded c). lia.
Qed.

Lemma chr_code_point (c : ascii) : chr (code_point c) = c.
Proof. unfold chr, code_point. now rewrite N2Z.id, ascii_N_embedding. Qed.

Lemma ref_utf8_roundtrip (s : string) : ref_utf8_decode (utf8_bytes s) = Ok s.
Proof.
  induction s as [|c s IH]; [reflexivity |].
  cbn [utf8_bytes]. pose proof (code_point_byte c) as Hc. unfold is_byte in Hc.
  destruct (Z.ltb_spec (code_point c) 128) as [Hlt|Hge]; cbn [ref_utf8_decode].
  - replace ((0 <=? code_point c) && (code_point c <? 128)) with true by lia.
    rewrite IH. cbn. now rewrite chr_code_point.
  - replace ((0 <=? 192 + code_point c / 64) && (192 + code_point c / 64 <? 128))
      with false by lia.
    replace ((194 <=? 192 + code_point c / 64) && (192 + code_point c / 64 <? 196)
             && (128 <=? 128 + code_point c mod 64)
             && (128 + code_point c mod 64 <? 192)) with true by lia.
    rewrite IH. cbn [mbind result_bind].
    replace ((192 + code_point c / 64 - 192) * 64 + (128 + code_point c mod 64 - 128))
      with (code_point c) by lia.
    now rewrite chr_code_point.
Qed.

Lemma ref_utf8_encode_bytes (s : string) : Forall is_byte (utf8_bytes s).
Proof.
  induction s as [|c s IH]; [constructor |].
  cbn [utf8_bytes]. pose proof (code_point_byte c) as Hc. unfold is_byte in *.
  destruct (Z.ltb_spec (code_point c) 128); repeat (constructor; [lia |]); exact IH.
Qed.

Lemma gzip_header_bytes (now : Z) : Forall is_byte (gzip_header now).
Proof.
  unfold gzip_header, is_byte. change (2 ^ 8) with 256. change (2 ^ 16) with 65536.
  change (2 ^ 24) with 16777216. change (2 ^ 32) with 4294967296.
  repeat (apply List.Forall_cons; [lia |]). apply List.Forall_nil.
Qed.

#[export] Instance reference_laws : CodecLaws Reference.codecs.
Proof.
  split; cbn.
  - apply ref_b64_roundtrip.
  - apply ref_b64encode_nonempty.
  - intros now bs _. reflexivity.
  - intros now bs Hbs. change (Forall is_byte (gzip_header now ++ bs)).
    apply Forall_app. split; [apply gzip_header_bytes | exact Hbs].
  - intros now bs. discriminate.
  - intros s bs [= <-]. apply ref_utf8_roundtrip.
  - intros s bs [= <-]. apply ref_utf8_encode_bytes.
  - intros bs. unfold ref_utf8_encode. eauto.
Qed.

Lemma strict_bytes_utf8 (s : string) (bs : list Z) :
  Surrogates.strict_bytes s = Ok bs -> bs = utf8_bytes s.
Proof.
  revert bs. induction s as [|c s IH]; intros bs; cbn [Surrogates.strict_bytes utf8_bytes].
  - now intros [= <-].
  - destruct (code_point c <? 128); [| discriminate].
    destruct (Surrogates.strict_bytes s) as [bs'|e]; [| discriminate].
    cbn [mbind result_bind]. intros [= <-]. f_equal. now apply IH.
Qed.

Lemma sextet_char_ascii (n : Z) : code_point (sextet_char n) < 128.
Proof.
  assert (Forall (fun c => code_point c < 128) alphabet) as Halpha.
  { apply List.Forall_forall. intros c Hc.
    repeat (destruct Hc as [<-|Hc]; [vm_compute; reflexivity |]). destruct Hc. }
  unfold sextet_char.
  destruct (nth_in_or_default (Z.to_nat n) alphabet pad) as [Hin| ->].
  - rewrite List.Forall_forall in Halpha. now apply Halpha.
  - vm_compute. reflexivity.
Qed.

Lemma encode_chars_ascii (n : nat) (bs : list Z) :
  (length bs <= n)%nat -> Forall (fun c => code_point c < 128) (encode_chars bs).
Proof.
  assert (code_point pad < 128) as Hpad by (vm_compute; reflexivity).
  revert bs. induction n as [n IH] using lt_wf_ind. intros bs Hn.
  destruct bs as [|b0 [|b1 [|b2 bs]]]; cbn [encode_chars].
  - apply List.Forall_nil.
  - repeat (apply List.Forall_cons; [apply sextet_char_ascii || exact Hpad |]).
    apply List.Forall_nil.
  - repeat (apply List.Forall_cons; [apply sextet_char_ascii || exact Hpad |]).
    apply List.Forall_nil.
  - repeat (apply List.Forall_cons; [apply sextet_char_ascii |]).
    apply (IH (length bs)); cbn [length] in Hn; lia.
Qed.

Lemma strict_bytes_ascii (cs : list ascii) :
  Forall (fun c => code_point c < 128) cs ->
  exists bs, Surrogates.strict_bytes (string_of_list_ascii cs) = Ok bs.
Proof.
  induction 1 as [|c cs Hc _ [bs IH]]; cbn [string_of_list_ascii Surrogates.strict_bytes].
  - eauto.
  - destruct (Z.ltb_spec (code_point c) 128); [| lia]. rewrite IH. cbn. eauto.
Qed.

#[export] Instance surrogates_laws : CodecLaws Surrogates.codecs.
Proof.
  split; cbn.
  - apply ref_b64_roundtrip.
  - apply ref_b64encode_nonempty.
  - intros now bs _. reflexivity.
  - intros now bs Hbs. change (Forall is_byte (gzip_header now ++ bs)).
    apply Forall_app. split; [apply gzip_header_bytes | exact Hbs].
  - intros now bs. discriminate.
  - intros s bs Hs. apply strict_bytes_utf8 in Hs as ->. apply ref_utf8_roundtrip.
  - intros s bs Hs. apply strict_bytes_utf8 in Hs as ->. apply ref_utf8_encode_bytes.
  - intros bs. apply strict_bytes_ascii, (encode_chars_ascii (length bs)). lia.
Qed.

End ReferenceLaws.

(** ** Round trip of the standard encoding *)

Section RoundTrip.
Import FormationDeckCode BoolListBase64Converter.

Lemma rebuild_modifier (base n id : Z) :
  0 <= n -> 0 <= base -> base mod 100 = 0 -> valid_id base n id ->
  rebuild base n (modifier id mod 128) = id
  /\ (0 <? modifier id mod 128) = negb (id =? 0).
Proof.
  intros Hn Hb Hb100 [-> | (m & Hm & ->)]; [split; reflexivity |].
  unfold rebuild, modifier.
  destruct (Z.ltb_spec 0 (n * 100 + base + m)); [| lia].
  replace ((n * 100 + base + m) mod 100) with m by lia.
  replace (m mod 128) with m by lia.
  destruct (Z.ltb_spec 0 m); [| lia].
  destruct (Z.eqb_spec (n * 100 + base + m) 0); [lia |].
  split; [lia | reflexivity].
Qed.

(** What the decoder rebuilds from the bits written for a formation whose
    equipment IDs and slot type are valid. *)
Lemma emitted_of_formation (f : FormationDetailInfo) :
  0 <= slot f -> valid_egos f -> 0 <= slot_type f <= 15 ->
  emitted (slot f)
    (on_wire (modifier (personality_id f), slot_type f,
              [modifier (ego1 f); modifier (ego2 f); modifier (ego3 f);
               modifier (ego4 f); modifier (ego5 f)]))
  = if (0 <? modifier (personality_id f) mod 128)
       || any [ego1 f; ego2 f; ego3 f; ego4 f; ego5 f]
    then [ {| slot := slot f;
              personality_id := rebuild 10000 (slot f) (modifier (personality_id f) mod 128);
              ego1 := ego1 f; ego2 := ego2 f; ego3 := ego3 f;
              ego4 := ego4 f; ego5 := ego5 f;
              enabled := 0 <? slot_type f; slot_type := slot_type f |} ]
    else [].
Proof.
  intros Hn (H1 & H2 & H3 & H4 & H5) Ht.
  unfold emitted, on_wire. cbn [map].
  change (fun ego_mod : Z => if 0 <? ego_mod then ego_mod + 20000 + slot f * 100 else 0)
    with (rebuild 20000 (slot f)).
  fold (rebuild 20000 (slot f) (modifier (ego1 f) mod 128)).
  fold (rebuild 20000 (slot f) (modifier (ego2 f) mod 128)).
  fold (rebuild 20000 (slot f) (modifier (ego3 f) mod 128)).
  fold (rebuild 20000 (slot f) (modifier (ego4 f) mod 128)).
  fold (rebuild 20000 (slot f) (modifier (ego5 f) mod 128)).
  fold (rebuild 10000 (slot f) (modifier (personality_id f) mod 128)).
  destruct (rebuild_modifier 20000 (slot f) (ego1 f) Hn ltac:(lia) eq_refl H1) as [-> _].
  destruct (rebuild_modifier 20000 (slot f) (ego2 f) Hn ltac:(lia) eq_refl H2) as [-> _].
  destruct (rebuild_modifier 20000 (slot f) (ego3 f) Hn ltac:(lia) eq_refl H3) as [-> _].
  destruct (rebuild_modifier 20000 (slot f) (ego4 f) Hn ltac:(lia) eq_refl H4) as [-> _].
  destruct (rebuild_modifier 20000 (slot f) (ego5 f) Hn ltac:(lia) eq_refl H5) as [-> _].
  replace (slot_type f mod 16) with (slot_type f) by lia.
  reflexivity.
Qed.

Lemma emitted_zeros (n : Z) : emitted n (on_wire (0, 0, [0; 0; 0; 0; 0])) = [].
Proof. reflexivity. Qed.

Lemma last_with_slot_Some (n : Z) (fs : list FormationDetailInfo)
    (f : FormationDetailInfo) :
  last_with_slot n fs = Some f -> In f fs /\ slot f = n.
Proof.
  unfold last_with_slot. intros Hl. apply last_Some_elem_of, list_elem_of_In in Hl.
  apply filter_In in Hl as [Hin Heq]. split; [assumption | lia].
Qed.

Lemma filter_slot_absent (n : Z) (fs : list FormationDetailInfo) :
  ~ In n (map slot fs) -> List.filter (fun g => slot g =? n) fs = [].
Proof.
  induction fs as [|h fs IH]; intros Hn; [reflexivity |].
  cbn [List.filter]. destruct (Z.eqb_spec (slot h) n) as [Heq|_].
  - exfalso. apply Hn. left. exact Heq.
  - apply IH. intros Hin. apply Hn. now right.
Qed.

Lemma last_with_slot_unique (fs : list FormationDetailInfo) (f : FormationDetailInfo) :
  NoDup (map slot fs) -> In f fs -> last_with_slot (slot f) fs = Some f.
Proof.
  unfold last_with_slot. induction fs as [|g fs IH]; intros Hnd Hin; [destruct Hin |].
  cbn [map] in Hnd. apply NoDup_cons in Hnd as [Hg Hnd].
  rewrite list_elem_of_In in Hg.
  cbn [List.filter]. destruct Hin as [-> | Hin].
  - now rewrite Z.eqb_refl, filter_slot_absent.
  - destruct (Z.eqb_spec (slot g) (slot f)) as [Heq|_].
    + exfalso. apply Hg. rewrite Heq. now apply in_map.
    + now apply IH.
Qed.

Lemma nonempty_slot_bool (f : FormationDetailInfo) :
  negb (personality_id f =? 0) || any [ego1 f; ego2 f; ego3 f; ego4 f; ego5 f] = true
  <-> nonempty_slot f.
Proof.
  unfold nonempty_slot, any. cbn [existsb].
  destruct (Z.eqb_spec (personality_id f) 0); destruct (Z.eqb_spec (ego1 f) 0);
    destruct (Z.eqb_spec (ego2 f) 0); destruct (Z.eqb_spec (ego3 f) 0);
    destruct (Z.eqb_spec (ego4 f) 0); destruct (Z.eqb_spec (ego5 f) 0);
    cbn; intuition congruence.
Qed.

Lemma emitted_valid (f : FormationDetailInfo) :
  valid_formation f ->
  emitted (slot f)
    (on_wire (modifier (personality_id f), slot_type f,
              [modifier (ego1 f); modifier (ego2 f); modifier (ego3 f);
               modifier (ego4 f); modifier (ego5 f)]))
  = if negb (personality_id f =? 0) || any [ego1 f; ego2 f; ego3 f; ego4 f; ego5 f]
    then [as_decoded f] else [].
Proof.
  intros (Hn & Hp & He & Ht).
  rewrite emitted_of_formation by (assumption || lia).
  destruct (rebuild_modifier 10000 (slot f) (personality_id f)
              ltac:(lia) ltac:(lia) eq_refl Hp) as [-> ->].
  reflexivity.
Qed.

Lemma flat_map_single {A B} (g : A -> list B) (l : list A) (x : A) :
  NoDup l -> In x l -> (forall y, In y l -> y <> x -> g y = []) ->
  flat_map g l = g x.
Proof.
  induction l as [|a l IH]; intros Hnd Hin Hg; [destruct Hin |].
  apply NoDup_cons in Hnd as [Ha Hnd]. rewrite list_elem_of_In in Ha.
  cbn [flat_map]. destruct Hin as [-> | Hin].
  - assert (flat_map g l = []) as ->; [| apply app_nil_r].
    rewrite (flat_map_eq_in g (fun _ => [])).
    + clear. induction l; [reflexivity | assumption].
    + intros y Hy. apply Hg; [now right | intros ->; contradiction].
  - rewrite (Hg a) by (now left || (intros ->; contradiction)).
    apply IH; [assumption | assumption |]. intros y Hy. apply Hg. now right.
Qed.

End RoundTrip.

(** C1, as the code has it.  For every list of formations with distinct slot
    numbers in 1..12, slot types in [0, 15] and IDs that are 0 or
    [slot * 100 + base + m] with [1 <= m <= 99], decoding the standard
    encoding (with or without validation) reports no error and returns
    exactly the formations of the list that have a non-zero ID, with the same
    slot, IDs and slot type and with [enabled] set to [slot_type > 0]. *)
Theorem standard_roundtrip `{C : Codecs} `{!CodecLaws C}
    (now : Z) (fs : list FormationDetailInfo) (validate : bool) :
  Forall valid_formation fs ->
  NoDup (map slot fs) ->
  exists code out,
    FormationDeckCode.encode now fs false = Ok code
    /\ FormationDeckCode.decode code validate = Ok (out, false)
    /\ forall g, In g out <-> exists f, In f fs /\ nonempty_slot f /\ g = as_decoded f.
Proof.
  intros Hvalid Hnd.
  destruct fs as [|f0 fs0] eqn:Hfs.
  { exists EmptyString, []. repeat split; try reflexivity.
    - intros [].
    - intros (f & [] & _). }
  rewrite <- Hfs in *. assert (fs <> []) as Hne by (rewrite Hfs; discriminate).
  clear Hfs f0 fs0.
  destruct (encode_standard now fs Hne) as (code & Henc & _ & _).
  exists code. eexists. split; [exact Henc |].
  split; [apply (decode_encode now fs code validate Hne Henc) |].
  rewrite List.Forall_forall in Hvalid.
  intros g. rewrite in_flat_map. split.
  - intros (i & Hi & Hg). apply in_seq in Hi.
    unfold slot_values in Hg. rewrite formation_map_lookup in Hg.
    destruct (last_with_slot (1 + Z.of_nat i) fs) as [f|] eqn:Hl;
      [| rewrite emitted_zeros in Hg; destruct Hg].
    apply last_with_slot_Some in Hl as [Hin Hslot].
    rewrite <- Hslot, emitted_valid in Hg by auto.
    destruct (negb (personality_id f =? 0) || _) eqn:Hb; [| destruct Hg].
    destruct Hg as [<- | []]. exists f.
    repeat split; [assumption | now apply nonempty_slot_bool].
  - intros (f & Hin & Hnz & ->).
    pose proof (Hvalid f Hin) as Hf. pose proof Hf as (Hslot & _).
    exists (Z.to_nat (slot f - 1)). split; [apply in_seq; lia |].
    replace (1 + Z.of_nat (Z.to_nat (slot f - 1))) with (slot f) by lia.
    unfold slot_values.
    rewrite formation_map_lookup, last_with_slot_unique by assumption.
    rewrite emitted_valid by assumption.
    apply nonempty_slot_bool in Hnz. rewrite Hnz. now left.
Qed.

Ltac solve_valid_id :=
  lazymatch goal with
  | |- valid_id ?base ?n ?id =>
      first [ left; reflexivity
            | right; exists (id - n * 100 - base); cbn; lia ]
  end.

Lemma standard_roundtrip_witness :
  exists code out,
    FormationDeckCode.encode (H := Reference.codecs) 1700000000
      [Samples.third_slot; Samples.sample_formation] false = Ok code
    /\ FormationDeckCode.decode (H := Reference.codecs) code true = Ok (out, false)
    /\ forall g, In g out <->
         exists f, In f [Samples.third_slot; Samples.sample_formation]
                   /\ nonempty_slot f /\ g = as_decoded f.
Proof.
  apply (standard_roundtrip (C := Reference.codecs)).
  - repeat (apply List.Forall_cons; [| try apply List.Forall_nil]);
      unfold valid_formation, valid_egos; repeat split; try (cbn; lia); solve_valid_id.
  - cbn. repeat constructor; rewrite ?list_elem_of_In; cbn; lia.
Defined.

(** Counterexample to C1 with the moduli of section 3: 100 is a 7-bit
    modulus, yet [encode] writes the personality modulus 0 for it and the
    formation does not come back from the round trip. *)
Lemma roundtrip_loses_modulus_100 :
  spec_valid_formation Samples.modulus_100
  /\ nonempty_slot Samples.modulus_100
  /\ wire_fields (FormationDeckCode.all_bits [Samples.modulus_100]) 0
     = (0, 1, [0; 0; 0; 0; 0])
  /\ exists code,
       FormationDeckCode.encode (H := Reference.codecs) 1700000000
         [Samples.modulus_100] false = Ok code
       /\ FormationDeckCode.decode (H := Reference.codecs) code false = Ok ([], false).
Proof.
  split; [| split; [| split]].
  - unfold spec_valid_formation, spec_valid_id. cbn.
    repeat split; try lia; try (left; reflexivity).
    right. exists 100. lia.
  - left. discriminate.
  - vm_compute. reflexivity.
  - eexists. split; [vm_compute; reflexivity |]. vm_compute. reflexivity.
Qed.

(** ** An out-of-range personality ID *)

Section OutOfRange.
Import FormationDeckCode BoolListBase64Converter.
Context `{C : Codecs}.

Lemma last_with_slot_singleton (n : Z) (f : FormationDetailInfo) :
  last_with_slot n [f] = if slot f =? n then Some f else None.
Proof. unfold last_with_slot. cbn [List.filter]. now destruct (slot f =? n). Qed.

Lemma decode_never_reports (encoded : string) (validate : bool)
    (out : list FormationDetailInfo) (had_errors : bool) :
  decode encoded validate = Ok (out, had_errors) -> had_errors = false.
Proof.
  rewrite decode_spec, decode_bools_spec. cbn [FormationDeckCode.had_errors].
  now intros [= _ <-].
Qed.

End OutOfRange.

(** C2, what the code does where the claim expects an error.  A formation
    with [personality_id = 99999999] in a slot 1..12, with valid equipment
    IDs and slot type (the input of [test_validation_invalid_personality_id]
    is one), is encoded through its last two digits: decoding the code with
    [validate=true] returns [hadErrors = false] and the personality ID
    [slot * 100 + 10000 + 99], not 0; the equipment IDs and the slot type
    come back as they were, and [enabled] is [slot_type > 0]. *)
Theorem out_of_range_personality_wraps `{C : Codecs} `{!CodecLaws C}
    (now : Z) (f : FormationDetailInfo) :
  personality_id f = 99999999 ->
  1 <= slot f <= 12 ->
  valid_egos f ->
  0 <= slot_type f <= 15 ->
  exists code,
    FormationDeckCode.encode now [f] false = Ok code
    /\ FormationDeckCode.decode code true
       = Ok ([ {| slot := slot f;
                  personality_id := slot f * 100 + 10000 + 99;
                  ego1 := ego1 f; ego2 := ego2 f; ego3 := ego3 f;
                  ego4 := ego4 f; ego5 := ego5 f;
                  enabled := 0 <? slot_type f; slot_type := slot_type f |} ],
             false).
Proof.
  intros Hp Hslot He Ht.
  assert ([f] <> []) as Hne by discriminate.
  destruct (encode_standard now [f] Hne) as (code & Henc & _ & _).
  exists code. split; [exact Henc |].
  rewrite (decode_encode now [f] code true Hne Henc). do 2 f_equal.
  rewrite (flat_map_single _ _ (Z.to_nat (slot f - 1))).
  - replace (1 + Z.of_nat (Z.to_nat (slot f - 1))) with (slot f) by lia.
    unfold slot_values.
    rewrite formation_map_lookup, last_with_slot_singleton, Z.eqb_refl.
    rewrite emitted_of_formation by (assumption || lia).
    rewrite Hp.
    change (FormationDeckCode.modifier 99999999 mod 128) with 99.
    change (0 <? 99) with true. cbn [orb].
    unfold rebuild. change (0 <? 99) with true. cbv iota.
    do 2 f_equal. lia.
  - apply NoDup_ListNoDup, List.seq_NoDup.
  - apply in_seq. lia.
  - intros y Hy Hne'. apply in_seq in Hy.
    unfold slot_values.
    rewrite formation_map_lookup, last_with_slot_singleton.
    destruct (Z.eqb_spec (slot f) (1 + Z.of_nat y)); [lia | apply emitted_zeros].
Qed.

Lemma out_of_range_personality_wraps_witness :
  exists code,
    FormationDeckCode.encode (H := Reference.codecs) 1700000000
      [Samples.way_out_of_range] false = Ok code
    /\ FormationDeckCode.decode (H := Reference.codecs) code true
       = Ok ([ {| slot := 1; personality_id := 1 * 100 + 10000 + 99;
                  ego1 := 0; ego2 := 0; ego3 := 0; ego4 := 0; ego5 := 0;
                  enabled := true; slot_type := 1 |} ], false).
Proof.
  apply (out_of_range_personality_wraps (C := Reference.codecs) 1700000000
           Samples.way_out_of_range).
  - reflexivity.
  - cbn; lia.
  - unfold valid_egos; repeat split; solve_valid_id.
  - cbn; lia.
Defined.

(** Whatever the library codecs and the time of the call, no formation with
    [personality_id = 99999999] makes [decode] report an error on its
    standard encoding: the check the test expects never fires. *)
Lemma no_formation_triggers_validation :
  ~ exists (C : Codecs) (now : Z) (f : FormationDetailInfo) (code : string)
           (out : list FormationDetailInfo),
      personality_id f = 99999999
      /\ FormationDeckCode.encode now [f] false = Ok code
      /\ FormationDeckCode.decode code true = Ok (out, true).
Proof.
  intros (C & now & f & code & out & _ & _ & Hdec).
  apply decode_never_reports in Hdec. discriminate.
Qed.

(** ** The layout of the standard encoding *)

(** C4, as the code has it.  The standard path assembles exactly 553 bits:
    the reserved bit, set, then for the slots 1..12 in order 46 bits each
    (7 + 4 + 5 * 7, every field most significant bit first).  The byte
    buffer they are converted to is 70 bytes long, and the last byte holds
    bit 552 in its top position above seven zero padding bits; for a
    non-empty list, [encode] compresses the base-64 text of that buffer. *)
Theorem standard_bitstream_layout `{C : Codecs} (fs : list FormationDetailInfo) :
  let bits := FormationDeckCode.all_bits fs in
  let buffer := BoolListBase64Converter.bools_to_bytes bits in
  bits = true :: flat_map (fun n => field_bits
                                      (slot_values
                                         (FormationDeckCode.formation_map fs) n))
                          (seqZ 1 12)
  /\ (forall n, length (field_bits
                          (slot_values
                             (FormationDeckCode.formation_map fs) n)) = 46%nat)
  /\ (forall (v : Z) (k i : nat), (i < k)%nat ->
        nth i (FormationDeckCode.int_to_bools v k) false
        = Z.testbit v (Z.of_nat (k - 1 - i)))
  /\ length bits = 553%nat
  /\ length buffer = 70%nat
  /\ Forall is_byte buffer
  /\ nth 69 buffer 0 = (if nth 552 bits false then 128 else 0)
  /\ (fs <> [] -> forall now,
      FormationDeckCode.encode now fs false
      = TextCompressionUtility.compress now (b64encode buffer)).
Proof.
  cbv zeta. repeat split.
  - rewrite all_bits_slots. f_equal. apply flat_map_ext. intros n.
    apply slot_bits_fields.
  - intros n. rewrite <- slot_bits_fields. apply length_slot_bits.
  - intros v k i Hi. now apply nth_int_to_bools.
  - apply length_all_bits.
  - now rewrite length_bools_to_bytes, length_all_bits.
  - apply bools_to_bytes_bytes.
  - apply last_byte_553, length_all_bits.
  - intros Hne now. unfold FormationDeckCode.encode.
    destruct fs as [|f fs]; [contradiction |]. cbn [list_empty mbind result_bind].
    unfold BoolListBase64Converter.to_base64. now rewrite all_bits_nonempty.
Qed.

(** Counterexample to C4 with 69 bytes: the buffer of a one-formation deck
    is not 69 bytes long. *)
Lemma byte_buffer_is_not_69_bytes :
  length (FormationDeckCode.all_bits [Samples.sample_formation]) = 553%nat
  /\ length (BoolListBase64Converter.bools_to_bytes
               (FormationDeckCode.all_bits [Samples.sample_formation])) <> 69%nat.
Proof. split; [reflexivity | vm_compute; discriminate]. Qed.

(** ** The slot map of the standard path *)

Section LaterWins.
Import FormationDeckCode.

Lemma all_bits_chosen (fs : list FormationDetailInfo) :
  all_bits fs = true :: flat_map (fun n => field_bits (chosen_values n fs)) (seqZ 1 12).
Proof.
  rewrite all_bits_slots. f_equal. apply flat_map_ext. intros n.
  rewrite slot_bits_fields. unfold slot_values, chosen_values.
  now rewrite formation_map_lookup.
Qed.

Lemma last_with_slot_pair (n : Z) (f g : FormationDetailInfo) :
  slot f = slot g ->
  last_with_slot n [f; g] = if slot g =? n then Some g else None.
Proof.
  intros Hfg. unfold last_with_slot. cbn [List.filter]. rewrite Hfg.
  now destruct (slot g =? n).
Qed.

End LaterWins.

(** C10.  The bitstream of the standard path is built from a map keyed by
    slot number: after the reserved bit it holds, for the slot numbers 1..12
    in order, the fields of the last formation of the list with that slot
    number, and zeros when there is none.  So a formation with a slot number
    outside 1..12 adds nothing, and of two formations with one slot number
    the later one decides: the code of [[f; g]] decodes to [g] alone.  The
    code of a non-empty list is the compressed base-64 text of that
    bitstream; a non-empty list with only out-of-range slot numbers still
    yields a non-empty code, for the reserved bit followed by 552 zero bits,
    while the empty list yields the empty string. *)
Theorem encode_uses_slot_map `{C : Codecs} `{!CodecLaws C} :
  (forall fs,
     FormationDeckCode.all_bits fs
     = true :: flat_map (fun n => field_bits (chosen_values n fs)) (seqZ 1 12))
  /\ (forall fs1 f fs2, ~ 1 <= slot f <= 12 ->
        FormationDeckCode.all_bits (fs1 ++ f :: fs2)
        = FormationDeckCode.all_bits (fs1 ++ fs2))
  /\ (forall fs1 f fs2 g fs3, slot f = slot g ->
        FormationDeckCode.all_bits (fs1 ++ f :: fs2 ++ g :: fs3)
        = FormationDeckCode.all_bits (fs1 ++ fs2 ++ g :: fs3))
  /\ (forall now f g validate,
        slot f = slot g -> valid_formation g -> nonempty_slot g ->
        exists code,
          FormationDeckCode.encode now [f; g] false = Ok code
          /\ FormationDeckCode.decode code validate = Ok ([as_decoded g], false))
  /\ (forall now fs, fs <> [] ->
        FormationDeckCode.encode now fs false
        = TextCompressionUtility.compress now
            (BoolListBase64Converter.to_base64 (FormationDeckCode.all_bits fs)))
  /\ (forall now fs, fs <> [] -> Forall (fun f => ~ 1 <= slot f <= 12) fs ->
        FormationDeckCode.all_bits fs = true :: replicate 552 false
        /\ exists code, FormationDeckCode.encode now fs false = Ok code
                        /\ code <> EmptyString)
  /\ (forall now, FormationDeckCode.encode now [] false = Ok EmptyString).
Proof.
  split; [apply all_bits_chosen |].
  split.
  { intros fs1 f fs2 Hf. apply all_bits_ext. intros n Hn.
    apply last_with_slot_other. lia. }
  split.
  { intros fs1 f fs2 g fs3 Hfg. apply all_bits_ext. intros n Hn.
    now apply last_with_slot_shadowed. }
  split.
  { intros now f g validate Hfg Hg Hnz.
    assert ([f; g] <> []) as Hne by discriminate.
    destruct (encode_standard now [f; g] Hne) as (code & Henc & _ & _).
    exists code. split; [exact Henc |].
    rewrite (decode_encode now [f; g] code validate Hne Henc). do 2 f_equal.
    pose proof Hg as (Hslot & _).
    rewrite (flat_map_single _ _ (Z.to_nat (slot g - 1))).
    - replace (1 + Z.of_nat (Z.to_nat (slot g - 1))) with (slot g) by lia.
      unfold slot_values.
      rewrite formation_map_lookup, last_with_slot_pair, Z.eqb_refl by assumption.
      rewrite emitted_valid by assumption.
      apply nonempty_slot_bool in Hnz. now rewrite Hnz.
    - apply NoDup_ListNoDup, List.seq_NoDup.
    - apply in_seq. lia.
    - intros y Hy Hne'. apply in_seq in Hy.
      unfold slot_values.
      rewrite formation_map_lookup, last_with_slot_pair by assumption.
      destruct (Z.eqb_spec (slot g) (1 + Z.of_nat y)); [lia | apply emitted_zeros]. }
  split.
  { intros now fs Hne. unfold FormationDeckCode.encode.
    destruct fs; [contradiction | reflexivity]. }
  split; [| reflexivity].
  intros now fs Hne Hout. split; [now apply all_bits_out_of_range |].
  destruct (encode_standard now fs Hne) as (code & Henc & Hcode & _).
  exists code. split; [exact Henc |].
  intros ->. discriminate.
Qed.

Lemma encode_uses_slot_map_witness :
  (exists code,
     FormationDeckCode.encode (H := Reference.codecs) 1700000000
       [Samples.modulus_100; Samples.sample_formation] false = Ok code
     /\ FormationDeckCode.decode (H := Reference.codecs) code true
        = Ok ([as_decoded Samples.sample_formation], false))
  /\ FormationDeckCode.all_bits [Samples.slot_13] = true :: replicate 552 false
  /\ exists code,
       FormationDeckCode.encode (H := Reference.codecs) 1700000000
         [Samples.slot_13] false = Ok code
       /\ code <> EmptyString.
Proof.
  destruct (encode_uses_slot_map (C := Reference.codecs))
    as (_ & _ & _ & Hlater & _ & Hout & _).
  split.
  - apply Hlater.
    + reflexivity.
    + unfold valid_formation, valid_egos; repeat split; try (cbn; lia); solve_valid_id.
    + left. discriminate.
  - apply Hout.
    + discriminate.
    + repeat constructor. cbn. lia.
Defined.

Lemma int_list_roundtrip_witness :
  exists s,
    IntListBase64Converter.encode (H := Reference.codecs)
      (Some [-2147483648; 2147483647; 0; -1]) = Ok s
    /\ ([-2147483648; 2147483647; 0; -1] <> [] ->
        s = Reference.ref_b64encode (flat_map le32 [-2147483648; 2147483647; 0; -1]))
    /\ IntListBase64Converter.decode (H := Reference.codecs) s
       = Ok [-2147483648; 2147483647; 0; -1].
Proof.
  apply (int_list_roundtrip (C := Reference.codecs)).
  repeat (apply List.Forall_cons; [unfold int32; lia |]). apply List.Forall_nil.
Defined.

(** * Part III: further properties of the converters and of the packer *)

(** ** Text compression *)

(** X1.  For a text that UTF-8 can encode, [decompress] inverts [compress]
    whatever the clock reads, and the code is empty exactly for the empty
    text.  For a text that UTF-8 refuses, a lone surrogate for one,
    [compress] swallows the error and returns the empty string although the
    text is not empty. *)
Theorem compress_decompress_roundtrip `{C : Codecs} `{!CodecLaws C}
    (now : Z) (text : string) :
  (forall text_bytes, utf8_encode text = Ok text_bytes ->
     exists code,
       TextCompressionUtility.compress now text = Ok code
       /\ TextCompressionUtility.decompress code = Ok text
       /\ (code = EmptyString <-> text = EmptyString))
  /\ (forall e, utf8_encode text = Raise e ->
        TextCompressionUtility.compress now text = Ok EmptyString).
Proof.
  split.
  - intros text_bytes Hu. destruct text as [|c text].
    + exists EmptyString. repeat split; reflexivity.
    + set (t := String c text) in *.
      assert (str_empty t = false) as Ht by reflexivity.
      destruct (compress_encodable now t text_bytes Ht Hu) as (Hc & Hne & Hd).
      exists (b64encode (gzip_write now text_bytes)).
      split; [exact Hc |]. split; [exact Hd |].
      split; [| discriminate].
      intros Heq. rewrite Heq in Hne. discriminate.
  - intros e Hu. unfold TextCompressionUtility.compress. rewrite Hu.
    now destruct (str_empty text).
Qed.

Lemma compress_decompress_roundtrip_witness :
  (exists code,
     TextCompressionUtility.compress (H := Reference.codecs) 1700000000 "gYEQIA==" = Ok code
     /\ TextCompressionUtility.decompress (H := Reference.codecs) code
        = Ok "gYEQIA=="%string
     /\ (code = EmptyString <-> "gYEQIA=="%string = EmptyString))
  /\ TextCompressionUtility.compress (H := Surrogates.codecs) 1700000000
       (String (Reference.chr 216) EmptyString) = Ok EmptyString.
Proof.
  split.
  - eapply (compress_decompress_roundtrip (C := Reference.codecs)). reflexivity.
  - eapply (compress_decompress_roundtrip (C := Surrogates.codecs)). reflexivity.
Defined.

(** ** The byte-bit adapter, continued *)

Section ByteBitMore.
Import BoolListBase64Converter.

(** The loop of [from_base64] with its [break]. *)
Lemma from_base64_loop_break (data : list Z) (count start : nat) :
  from_base64_loop data count start
  = map (bit_value data) (seq start (Nat.min count (8 * length data - start))).
Proof.
  revert start. induction count as [|count IH]; intros start; [reflexivity |].
  cbn [from_base64_loop]. rewrite Nat.shiftr_div_pow2. change (2 ^ 3)%nat with 8%nat.
  destruct (Nat.leb_spec (length data) (start / 8)) as [Hbreak|Hin].
  - replace (Nat.min (S count) (8 * length data - start)) with 0%nat by lia.
    reflexivity.
  - replace (Nat.min (S count) (8 * length data - start))
      with (S (Nat.min count (8 * length data - S start))) by lia.
    cbn [seq map]. now rewrite IH.
Qed.

Lemma bytes_to_bits_all (data : list Z) :
  bytes_to_bits data 0 = map (bit_value data) (seq 0 (8 * length data)).
Proof.
  unfold bytes_to_bits. cbn [Z.ltb Z.compare]. rewrite from_base64_loop_break.
  f_equal. f_equal. lia.
Qed.

Lemma bit_value_padded (bools : list bool) (k : nat) :
  (k < 8 * length (bools_to_bytes bools))%nat ->
  bit_value (bools_to_bytes bools) k = nth k bools false.
Proof.
  rewrite length_bools_to_bytes. intros Hk. unfold bit_value.
  rewrite Nat.shiftr_div_pow2. change (2 ^ 3)%nat with 8%nat.
  change (Nat.land k 7) with (Nat.land k (Nat.ones 3)).
  rewrite Nat.land_ones. change (2 ^ 3)%nat with 8%nat.
  rewrite nth_bools_to_bytes by lia.
  rewrite land_mask_testbit by lia.
  rewrite testbit_byte_val by lia.
  replace (k / 8 * 8 + (7 - (7 - k mod 8)))%nat with k by lia.
  destruct (Nat.ltb_spec k (length bools)); [reflexivity |].
  symmetry. now apply nth_overflow.
Qed.

Lemma nth_replicate_default {A} (d : A) (n i : nat) : nth i (replicate n d) d = d.
Proof. revert i. induction n as [|n IH]; intros [|i]; cbn; auto. Qed.

Lemma map_nth_seq_padded {A} (l : list A) (d : A) (n : nat) :
  (length l <= n)%nat ->
  map (fun k => nth k l d) (seq 0 n) = l ++ replicate (n - length l) d.
Proof.
  intros Hn. apply (nth_ext _ _ d d).
  - rewrite length_map, length_seq, length_app, length_replicate. lia.
  - intros k Hk. rewrite length_map, length_seq in Hk.
    rewrite (nth_indep _ d (nth 0 l d)) by now rewrite length_map, length_seq.
    rewrite (map_nth (fun k => nth k l d)), seq_nth by assumption. cbn [Nat.add].
    destruct (Nat.lt_ge_cases k (length l)) as [Hlt|Hge].
    + now rewrite app_nth1.
    + rewrite app_nth2, nth_overflow by assumption.
      symmetry. apply nth_replicate_default.
Qed.

Lemma bytes_to_bits_padded (B : list bool) :
  bytes_to_bits (bools_to_bytes B) 0
  = B ++ replicate (8 * ((length B + 7) / 8) - length B) false.
Proof.
  rewrite bytes_to_bits_all.
  rewrite (map_ext_in _ (fun k => nth k B false)).
  - rewrite length_bools_to_bytes. apply map_nth_seq_padded. lia.
  - intros k Hk. apply in_seq in Hk. apply bit_value_padded. lia.
Qed.

Lemma testbit_byte_high (b p : Z) : is_byte b -> 8 <= p -> Z.testbit b p = false.
Proof.
  unfold is_byte. intros Hb Hp.
  destruct (Z.eq_dec b 0) as [->|Hne]; [apply Z.bits_0 |].
  apply Z.bits_above_log2; [lia |].
  assert (Z.log2 b < 8); [| lia].
  apply Z.log2_lt_pow2; [lia |]. change (2 ^ 8) with 256. lia.
Qed.

Lemma bit_value_testbit (data : list Z) (c p : nat) :
  (p < 8)%nat ->
  bit_value data (c * 8 + (7 - p)) = Z.testbit (nth c data 0) (Z.of_nat p).
Proof.
  intros Hp. unfold bit_value.
  rewrite Nat.shiftr_div_pow2. change (2 ^ 3)%nat with 8%nat.
  change (Nat.land (c * 8 + (7 - p)) 7) with (Nat.land (c * 8 + (7 - p)) (Nat.ones 3)).
  rewrite Nat.land_ones. change (2 ^ 3)%nat with 8%nat.
  rewrite land_mask_testbit by lia.
  replace ((c * 8 + (7 - p)) / 8)%nat with c by lia.
  f_equal. lia.
Qed.

Lemma bools_to_bytes_bits (data : list Z) :
  Forall is_byte data -> bools_to_bytes (bytes_to_bits data 0) = data.
Proof.
  intros Hdata. rewrite bytes_to_bits_all.
  set (bits := map (bit_value data) (seq 0 (8 * length data))).
  assert (length bits = (8 * length data)%nat) as Hlen
    by (subst bits; now rewrite length_map, length_seq).
  apply (nth_ext _ _ 0 0).
  - rewrite length_bools_to_bytes, Hlen. lia.
  - intros c Hc. rewrite length_bools_to_bytes, Hlen in Hc.
    assert (c < length data)%nat as Hc' by lia.
    rewrite nth_bools_to_bytes by (rewrite Hlen; lia).
    assert (is_byte (nth c data 0)) as Hb.
    { rewrite List.Forall_forall in Hdata. apply Hdata, nth_In, Hc'. }
    apply Z.bits_inj'. intros q Hq.
    destruct (Z.lt_ge_cases q 8) as [Hlt|Hge].
    + replace q with (Z.of_nat (Z.to_nat q)) by lia.
      rewrite testbit_byte_val by lia.
      rewrite Hlen.
      destruct (Nat.ltb_spec (c * 8 + (7 - Z.to_nat q)) (8 * length data)); [| lia].
      cbn [andb]. subst bits.
      rewrite (nth_indep _ false (bit_value data 0))
        by (rewrite length_map, length_seq; lia).
      rewrite map_nth, seq_nth by lia. cbn [Nat.add].
      apply bit_value_testbit. lia.
    + rewrite !testbit_byte_high by (assumption || apply byte_val_is_byte).
      reflexivity.
Qed.

End ByteBitMore.

Section ByteBitText.
Import BoolListBase64Converter.
Context `{C : Codecs} `{!CodecLaws C}.

Lemma from_base64_of_to_base64 (B : list bool) (n : Z) :
  B <> [] ->
  from_base64 (to_base64 B) n = Ok (bytes_to_bits (bools_to_bytes B) n).
Proof.
  intros HB. unfold from_base64. rewrite to_base64_nonempty by assumption.
  unfold to_base64. destruct B as [|b B]; [contradiction |]. cbn [list_empty].
  now rewrite b64_roundtrip by apply bools_to_bytes_bytes.
Qed.

End ByteBitText.

(** X2.  Through the base-64 text as well, reading back [len(B)] bits of
    [to_base64(B)] returns [B]. *)
Theorem from_base64_to_base64_roundtrip `{C : Codecs} `{!CodecLaws C} (B : list bool) :
  BoolListBase64Converter.from_base64
    (BoolListBase64Converter.to_base64 B) (Z.of_nat (length B)) = Ok B.
Proof.
  destruct B as [|b B]; [reflexivity |].
  rewrite from_base64_of_to_base64 by discriminate.
  now rewrite bytes_to_bits_roundtrip.
Qed.

Lemma from_base64_to_base64_roundtrip_witness :
  BoolListBase64Converter.from_base64 (H := Reference.codecs)
    (BoolListBase64Converter.to_base64 (H := Reference.codecs)
       [true; false; true; true; false; false; true; false; true; true])
    (Z.of_nat (length [true; false; true; true; false; false; true; false; true; true]))
  = Ok [true; false; true; true; false; false; true; false; true; true].
Proof. apply (from_base64_to_base64_roundtrip (C := Reference.codecs)). Defined.

(** X3.  With an expected count that is not positive, [from_base64] returns
    every bit of the buffer: read back from [to_base64(B)], that is [B]
    followed by the zero bits that pad the last byte. *)
Theorem from_base64_unbounded_pads `{C : Codecs} `{!CodecLaws C}
    (B : list bool) (expected_count : Z) :
  expected_count <= 0 ->
  BoolListBase64Converter.from_base64
    (BoolListBase64Converter.to_base64 B) expected_count
  = Ok (B ++ replicate (8 * ((length B + 7) / 8) - length B) false).
Proof.
  intros Hn. destruct B as [|b B]; [reflexivity |].
  rewrite from_base64_of_to_base64 by discriminate. f_equal.
  rewrite <- bytes_to_bits_padded. unfold BoolListBase64Converter.bytes_to_bits.
  destruct (Z.ltb_spec 0 expected_count); [lia | reflexivity].
Qed.

Lemma from_base64_unbounded_pads_witness :
  BoolListBase64Converter.from_base64 (H := Reference.codecs)
    (BoolListBase64Converter.to_base64 (H := Reference.codecs) [true; false; true]) 0
  = Ok ([true; false; true]
        ++ replicate (8 * ((length [true; false; true] + 7) / 8)
                      - length [true; false; true]) false).
Proof. apply (from_base64_unbounded_pads (C := Reference.codecs)). lia. Defined.

(** X4.  A positive expected count truncates and never pads: the bits
    returned are the first [expected_count] of the [8 * len(data)] bits of
    the buffer, or all of them when the buffer is shorter. *)
Theorem bytes_to_bits_truncates (data : list Z) (expected_count : Z) :
  length (BoolListBase64Converter.bytes_to_bits data 0) = (8 * length data)%nat
  /\ BoolListBase64Converter.bytes_to_bits data expected_count
     = (if 0 <? expected_count
        then take (Z.to_nat expected_count) (BoolListBase64Converter.bytes_to_bits data 0)
        else BoolListBase64Converter.bytes_to_bits data 0)
  /\ length (BoolListBase64Converter.bytes_to_bits data expected_count)
     = (if 0 <? expected_count
        then Nat.min (Z.to_nat expected_count) (8 * length data)%nat
        else (8 * length data)%nat).
Proof.
  assert (BoolListBase64Converter.bytes_to_bits data expected_count
          = if 0 <? expected_count
            then take (Z.to_nat expected_count)
                      (BoolListBase64Converter.bytes_to_bits data 0)
            else BoolListBase64Converter.bytes_to_bits data 0) as Heq.
  { rewrite bytes_to_bits_all. unfold BoolListBase64Converter.bytes_to_bits.
    destruct (Z.ltb_spec 0 expected_count).
    - rewrite from_base64_loop_break, firstn_map, take_seq.
      do 2 f_equal. lia.
    - rewrite from_base64_loop_break. do 2 f_equal. lia. }
  assert (length (BoolListBase64Converter.bytes_to_bits data 0) = (8 * length data)%nat)
    as Hlen by now rewrite bytes_to_bits_all, length_map, length_seq.
  split; [exact Hlen |]. split; [exact Heq |].
  rewrite Heq. destruct (0 <? expected_count); [| exact Hlen].
  rewrite length_take, Hlen. reflexivity.
Qed.

(** X5.  Bytes survive the trip through bits: converting all the bits of a
    byte buffer back with the loop of [to_base64] returns the buffer. *)
Theorem bools_to_bytes_bytes_to_bits (data : list Z) :
  Forall is_byte data ->
  BoolListBase64Converter.bools_to_bytes
    (BoolListBase64Converter.bytes_to_bits data 0) = data.
Proof. apply bools_to_bytes_bits. Qed.

Lemma bools_to_bytes_bytes_to_bits_witness :
  BoolListBase64Converter.bools_to_bytes
    (BoolListBase64Converter.bytes_to_bits [129; 16; 255; 0] 0) = [129; 16; 255; 0].
Proof.
  apply bools_to_bytes_bytes_to_bits.
  repeat (apply List.Forall_cons; [unfold is_byte; lia |]). apply List.Forall_nil.
Defined.

(** ** The integer-list codec, continued *)

Section IntListMore.
Import IntListBase64Converter.

Lemma pack_i32_cases (v : Z) :
  (int32 v /\ pack_i32 v = Ok (le32 v)) \/ (~ int32 v /\ pack_i32 v = Raise StructError).
Proof.
  destruct (Z_le_dec (- 2147483648) v) as [Hlo|Hlo];
    [destruct (Z_le_dec v 2147483647) as [Hhi|Hhi] |].
  - left. split; [unfold int32; lia | apply pack_i32_in_range; unfold int32; lia].
  - right. split; [unfold int32; lia |]. unfold pack_i32.
    change (2 ^ 31 - 1) with 2147483647.
    destruct (Z.leb_spec v 2147483647); [lia | now rewrite andb_false_r].
  - right. split; [unfold int32; lia |]. unfold pack_i32.
    change (- 2 ^ 31) with (- 2147483648).
    destruct (Z.leb_spec (- 2147483648) v); [lia | reflexivity].
Qed.

Lemma pack_loop_struct_error (l acc : list Z) :
  pack_loop l acc = Raise StructError <-> Exists (fun v => ~ int32 v) l.
Proof.
  revert acc. induction l as [|v l IH]; intros acc; cbn [pack_loop].
  - split; [discriminate | intros H; inversion H].
  - destruct (pack_i32_cases v) as [[Hv ->] | [Hv ->]]; cbn [mbind result_bind].
    + rewrite IH. split; [now right |].
      intros H. inversion H; subst; [contradiction | assumption].
    + split; [now left | reflexivity].
Qed.

Lemma length_unpack_fields (count : nat) (buffer : list Z) :
  length buffer = (4 * count)%nat -> length (unpack_fields count buffer) = count.
Proof.
  revert buffer. induction count as [|count IH]; intros buffer Hlen.
  - now destruct buffer.
  - destruct buffer as [|b0 [|b1 [|b2 [|b3 buffer]]]]; cbn in Hlen; try lia.
    cbn [unpack_fields length]. rewrite IH; [reflexivity | lia].
Qed.

Lemma unpack_i32_range (b0 b1 b2 b3 : Z) :
  is_byte b0 -> is_byte b1 -> is_byte b2 -> is_byte b3 ->
  int32 (unpack_i32 b0 b1 b2 b3).
Proof.
  unfold is_byte, int32, unpack_i32. intros H0 H1 H2 H3.
  change (2 ^ 8) with 256. change (2 ^ 16) with 65536.
  change (2 ^ 24) with 16777216. change (2 ^ 32) with 4294967296.
  change (2 ^ 31) with 2147483648.
  destruct (Z.ltb_spec (b0 + b1 * 256 + b2 * 65536 + b3 * 16777216) 2147483648); lia.
Qed.

Lemma unpack_fields_range (count : nat) (buffer : list Z) :
  Forall is_byte buffer -> Forall int32 (unpack_fields count buffer).
Proof.
  revert buffer. induction count as [|count IH]; intros buffer Hb; [constructor |].
  destruct buffer as [|b0 [|b1 [|b2 [|b3 buffer]]]]; try constructor.
  - apply Forall_cons_1 in Hb as [H0 Hb]. apply Forall_cons_1 in Hb as [H1 Hb].
    apply Forall_cons_1 in Hb as [H2 Hb]. apply Forall_cons_1 in Hb as [H3 Hb].
    now apply unpack_i32_range.
  - apply IH. do 4 apply Forall_cons_1 in Hb as [_ Hb]. exact Hb.
Qed.

Context `{C : Codecs}.

(** [decode] past the emptiness test, on the decoded buffer. *)
Lemma decode_of_buffer (s : string) (data : list Z) :
  str_empty s = false -> b64decode s = Ok data ->
  decode s = Ok (unpack_fields (length data / 4) (take (length data / 4 * 4) data)).
Proof.
  intros Hs Hd. unfold decode. rewrite Hs, Hd. cbn [mbind result_bind].
  unfold struct_unpack. rewrite length_take.
  assert (Nat.min (length data / 4 * 4) (length data) = 4 * (length data / 4))%nat
    as -> by lia.
  now rewrite Nat.eqb_refl.
Qed.

End IntListMore.

(** X6.  [decode] of the integer-list codec never raises.  It returns the
    empty list for the empty string and when base-64 decoding fails;
    otherwise it returns one value per complete group of four bytes, each in
    the signed 32-bit range. *)
Theorem int_list_decode_total `{C : Codecs} (b64_string : string) :
  exists l,
    IntListBase64Converter.decode b64_string = Ok l
    /\ (b64_string = EmptyString -> l = [])
    /\ ((exists e, b64decode b64_string = Raise e) -> l = [])
    /\ (forall data, b64_string <> EmptyString -> b64decode b64_string = Ok data ->
          length l = (length data / 4)%nat
          /\ (Forall is_byte data -> Forall int32 l)).
Proof.
  destruct b64_string as [|c s].
  { exists []. split; [reflexivity |]. split; [reflexivity |]. split; [reflexivity |].
    intros data Hne. contradiction. }
  set (t := String c s). assert (str_empty t = false) as Ht by reflexivity.
  destruct (b64decode t) as [data|e] eqn:Hd.
  - rewrite (decode_of_buffer t data Ht Hd). eexists. split; [reflexivity |].
    split; [discriminate |]. split; [intros [e' He']; discriminate |].
    intros data' _ [= <-]. split.
    + apply length_unpack_fields. rewrite length_take. lia.
    + intros Hb. apply unpack_fields_range. now apply Forall_take.
  - exists []. split.
    + unfold IntListBase64Converter.decode. rewrite Ht, Hd. reflexivity.
    + split; [discriminate |]. split; [reflexivity |].
      intros data _ Hd'. discriminate.
Qed.

(** X7.  Trailing bytes that do not complete a group of four are dropped:
    a buffer holding the little-endian bytes of [v] followed by fewer than
    four more bytes decodes to [v]. *)
Theorem int_list_decode_drops_tail `{C : Codecs}
    (b64_string : string) (v tail : list Z) :
  b64_string <> EmptyString ->
  b64decode b64_string = Ok (flat_map le32 v ++ tail) ->
  (length tail < 4)%nat ->
  Forall int32 v ->
  IntListBase64Converter.decode b64_string = Ok v.
Proof.
  intros Hne Hd Htail Hv.
  assert (str_empty b64_string = false) as Hs
    by (destruct b64_string; [now contradict Hne | reflexivity]).
  rewrite (decode_of_buffer _ _ Hs Hd). f_equal.
  rewrite length_app, length_flat_map_le32.
  replace ((4 * length v + length tail) / 4)%nat with (length v) by lia.
  replace (length v * 4)%nat with (length (flat_map le32 v))
    by (rewrite length_flat_map_le32; lia).
  rewrite take_app_length. now apply unpack_fields_le32.
Qed.

Lemma int_list_decode_drops_tail_witness :
  IntListBase64Converter.decode (H := Reference.codecs)
    (Reference.ref_b64encode (flat_map le32 [1; -2] ++ [255; 7])) = Ok [1; -2].
Proof.
  apply (int_list_decode_drops_tail (C := Reference.codecs) _ [1; -2] [255; 7]).
  - vm_compute. discriminate.
  - vm_compute. reflexivity.
  - cbn. lia.
  - repeat (apply List.Forall_cons; [unfold int32; lia |]). apply List.Forall_nil.
Defined.

(** X8.  [encode] of the integer-list codec raises [struct.error] exactly
    when the list holds a value outside the signed 32-bit range; otherwise it
    returns a string: the empty one for the empty list, else the base-64
    text of the values' little-endian bytes, four per value. *)
Theorem int_list_encode_struct_error `{C : Codecs} (int_list : list Z) :
  (IntListBase64Converter.encode (Some int_list) = Raise StructError
   <-> Exists (fun v => ~ int32 v) int_list)
  /\ (~ Exists (fun v => ~ int32 v) int_list ->
      IntListBase64Converter.encode (Some int_list)
      = Ok (if list_empty int_list then EmptyString
            else b64encode (flat_map le32 int_list))).
Proof.
  split.
  - unfold IntListBase64Converter.encode.
    destruct int_list as [|v l]; cbn [list_empty].
    + split; [discriminate | intros H; inversion H].
    + rewrite <- (pack_loop_struct_error (v :: l) []).
      destruct (IntListBase64Converter.pack_loop (v :: l) []); cbn [mbind result_bind];
        split; congruence.
  - intros Hin.
    assert (Forall int32 int_list) as Hall.
    { apply List.Forall_forall. intros v Hv.
      destruct (Z_le_dec (- 2147483648) v) as [Hlo|Hlo];
        [destruct (Z_le_dec v 2147483647) as [Hhi|Hhi]; [now split |] |];
        exfalso; apply Hin, List.Exists_exists; exists v;
        (split; [exact Hv | unfold int32; lia]). }
    unfold IntListBase64Converter.encode.
    destruct (list_empty int_list); [reflexivity |].
    now rewrite pack_loop_in_range.
Qed.

(** ** The out-of-rule path of [encode] *)

Section OutOfRule.
Import FormationDeckCode.

Lemma int_list_fields (fs : list FormationDetailInfo) :
  int_list fs = flat_map fields_of fs.
Proof. unfold int_list. now rewrite fold_left_extend. Qed.

Lemma int_list_nonempty (fs : list FormationDetailInfo) :
  fs <> [] -> list_empty (int_list fs) = false.
Proof. rewrite int_list_fields. now destruct fs. Qed.

Context `{C : Codecs}.

Lemma compress_total (now : Z) (text : string) :
  exists code, TextCompressionUtility.compress now text = Ok code.
Proof.
  unfold TextCompressionUtility.compress.
  destruct (str_empty text); [eauto |].
  destruct (utf8_encode text); cbn; eauto.
Qed.

(** The out-of-rule path on a non-empty list, as far as the packing. *)
Lemma encode_out_of_rule (now : Z) (fs : list FormationDetailInfo) :
  fs <> [] ->
  encode now fs true
  = (byte_buffer ← IntListBase64Converter.pack_loop (int_list fs) [];
     TextCompressionUtility.compress now (b64encode byte_buffer)).
Proof.
  intros Hne. unfold encode, IntListBase64Converter.encode.
  rewrite int_list_nonempty by assumption.
  destruct fs; [contradiction |]. cbn [list_empty].
  now destruct (IntListBase64Converter.pack_loop _ _).
Qed.

Lemma encode_out_of_rule_struct_error (now : Z) (fs : list FormationDetailInfo) :
  encode now fs true = Raise StructError
  <-> Exists (fun f => Exists (fun v => ~ int32 v) (fields_of f)) fs.
Proof.
  rewrite <- Exists_flat_map, <- int_list_fields, <- (pack_loop_struct_error _ []).
  destruct fs as [|f fs].
  - split; discriminate.
  - rewrite encode_out_of_rule by discriminate.
    destruct (IntListBase64Converter.pack_loop _ _) as [buf|e]; cbn [mbind result_bind].
    + destruct (compress_total now (b64encode buf)) as [code ->]. split; discriminate.
    + split; congruence.
Qed.

End OutOfRule.

Section OutOfRuleRoundTrip.
Context `{C : Codecs} `{!CodecLaws C}.

Lemma int_list_encode_ok (l : list Z) :
  l <> [] -> Forall int32 l ->
  IntListBase64Converter.pack_loop l [] = Ok (flat_map le32 l)
  /\ str_empty (b64encode (flat_map le32 l)) = false
  /\ IntListBase64Converter.decode (b64encode (flat_map le32 l)) = Ok l.
Proof.
  intros Hne Hl.
  assert (flat_map le32 l <> []) as Hbuf.
  { intros Heq. apply (f_equal (@length Z)) in Heq.
    rewrite length_flat_map_le32 in Heq. destruct l; [contradiction | cbn in Heq; lia]. }
  assert (str_empty (b64encode (flat_map le32 l)) = false) as Hs.
  { destruct (b64encode (flat_map le32 l)) eqn:Hs; [| reflexivity].
    exfalso; eapply b64encode_nonempty; eassumption. }
  split; [now rewrite pack_loop_in_range | split; [exact Hs |]].
  rewrite (decode_of_buffer _ (flat_map le32 l) Hs)
    by (apply b64_roundtrip, flat_map_le32_bytes).
  rewrite length_flat_map_le32.
  replace (4 * length l / 4)%nat with (length l) by lia.
  rewrite firstn_all2 by (rewrite length_flat_map_le32; lia).
  now rewrite unpack_fields_le32.
Qed.

End OutOfRuleRoundTrip.

(** X9.  The out-of-rule code of a non-empty list whose fields are signed
    32-bit values decompresses to a base-64 text that the integer-list codec
    decodes to the formations' fields, seven per formation in list order:
    [personality_id, slot_type, ego1, ..., ego5]. *)
Theorem out_of_rule_roundtrip `{C : Codecs} `{!CodecLaws C}
    (now : Z) (fs : list FormationDetailInfo) :
  fs <> [] ->
  Forall (fun f => Forall int32 (fields_of f)) fs ->
  exists code inner_b64,
    FormationDeckCode.encode now fs true = Ok code
    /\ TextCompressionUtility.decompress code = Ok inner_b64
    /\ IntListBase64Converter.decode inner_b64 = Ok (flat_map fields_of fs).
Proof.
  intros Hne Hall.
  assert (flat_map fields_of fs <> []) as Hil by (destruct fs; [contradiction | discriminate]).
  assert (Forall int32 (flat_map fields_of fs)) as Hints.
  { apply List.Forall_forall. intros v Hv. apply in_flat_map in Hv as (f & Hf & Hv).
    rewrite List.Forall_forall in Hall. specialize (Hall f Hf).
    rewrite List.Forall_forall in Hall. now apply Hall. }
  destruct (int_list_encode_ok _ Hil Hints) as (Hpack & Hs & Hdec).
  rewrite encode_out_of_rule, int_list_fields, Hpack by assumption.
  cbn [mbind result_bind].
  destruct (compress_total now (b64encode (flat_map le32 (flat_map fields_of fs))))
    as [code Hc].
  exists code, (b64encode (flat_map le32 (flat_map fields_of fs))).
  split; [exact Hc |]. split; [| exact Hdec].
  eapply decompress_compress_b64, Hc.
Qed.

Lemma out_of_rule_roundtrip_witness :
  exists code inner_b64,
    FormationDeckCode.encode (H := Reference.codecs) 1700000000
      [Samples.slot_13; Samples.sample_formation] true = Ok code
    /\ TextCompressionUtility.decompress (H := Reference.codecs) code = Ok inner_b64
    /\ IntListBase64Converter.decode (H := Reference.codecs) inner_b64
       = Ok (flat_map fields_of [Samples.slot_13; Samples.sample_formation]).
Proof.
  apply (out_of_rule_roundtrip (C := Reference.codecs)).
  - discriminate.
  - apply List.Forall_cons; [| apply List.Forall_cons; [| apply List.Forall_nil]];
      unfold fields_of;
      repeat (apply List.Forall_cons; [unfold int32; cbn; lia |]); apply List.Forall_nil.
Defined.

(** X10.  The out-of-rule path carries neither the slot number nor the
    enabled flag: changing them in any formation of the list leaves the
    integer list and its base-64 text unchanged.  The codes themselves may
    differ, as the compressed stream holds the time of the call, but they
    decompress to the same text. *)
Theorem out_of_rule_ignores_slot `{C : Codecs} `{!CodecLaws C}
    (fs : list FormationDetailInfo)
    (slot_of : FormationDetailInfo -> Z) (flag_of : FormationDetailInfo -> bool) :
  let fs' := map (fun f => relabel (slot_of f) (flag_of f) f) fs in
  FormationDeckCode.int_list fs' = FormationDeckCode.int_list fs
  /\ IntListBase64Converter.encode (Some (FormationDeckCode.int_list fs'))
     = IntListBase64Converter.encode (Some (FormationDeckCode.int_list fs))
  /\ (forall now now' code code',
        FormationDeckCode.encode now fs' true = Ok code ->
        FormationDeckCode.encode now' fs true = Ok code' ->
        TextCompressionUtility.decompress code
        = TextCompressionUtility.decompress code').
Proof.
  intros fs'.
  assert (FormationDeckCode.int_list fs' = FormationDeckCode.int_list fs) as Hil.
  { subst fs'.
    now rewrite !int_list_fields, flat_map_concat_map, map_map, <- flat_map_concat_map. }
  split; [exact Hil |]. split; [now rewrite Hil |].
  intros now now' code code'.
  destruct fs as [|f fs].
  - cbn. congruence.
  - rewrite !encode_out_of_rule by (subst fs'; discriminate). rewrite Hil.
    destruct (IntListBase64Converter.pack_loop _ _) as [buf|e];
      cbn [mbind result_bind]; [| discriminate].
    intros Hc Hc'.
    now rewrite (decompress_compress_b64 _ _ _ Hc), (decompress_compress_b64 _ _ _ Hc').
Qed.

Lemma out_of_rule_ignores_slot_witness :
  exists code code',
    FormationDeckCode.encode (H := Reference.codecs) 1700000000
      [relabel 7 false Samples.sample_formation] true = Ok code
    /\ FormationDeckCode.encode (H := Reference.codecs) 1700000060
         [Samples.sample_formation] true = Ok code'
    /\ code <> code'
    /\ TextCompressionUtility.decompress (H := Reference.codecs) code
       = TextCompressionUtility.decompress (H := Reference.codecs) code'.
Proof.
  eexists _, _.
  split; [vm_compute; reflexivity |].
  split; [vm_compute; reflexivity |].
  split; [discriminate |].
  apply (out_of_rule_ignores_slot (C := Reference.codecs) [Samples.sample_formation]
           (fun _ => 7) (fun _ => false)) with (now := 1700000000) (now' := 1700000060);
    vm_compute; reflexivity.
Defined.

(** X11.  [encode] raises only on the out-of-rule path, and there exactly
    when a personality ID, slot type or equipment ID of the list is outside
    the signed 32-bit range; the exception is [struct.error].  The standard
    path returns a code for every list. *)
Theorem encode_raises_only_out_of_rule `{C : Codecs}
    (now : Z) (fs : list FormationDetailInfo) :
  (exists code, FormationDeckCode.encode now fs false = Ok code)
  /\ (FormationDeckCode.encode now fs true = Raise StructError
      <-> Exists (fun f => Exists (fun v => ~ int32 v) (fields_of f)) fs)
  /\ (forall out_of_rule e,
        FormationDeckCode.encode now fs out_of_rule = Raise e ->
        out_of_rule = true /\ e = StructError).
Proof.
  assert (exists code, FormationDeckCode.encode now fs false = Ok code) as Hstd.
  { unfold FormationDeckCode.encode. destruct (list_empty fs); [eauto |].
    cbn [mbind result_bind]. apply compress_total. }
  split; [exact Hstd |]. split; [apply encode_out_of_rule_struct_error |].
  intros [|] e He.
  - split; [reflexivity |]. destruct fs as [|f fs]; [discriminate |].
    rewrite encode_out_of_rule in He by discriminate.
    destruct (IntListBase64Converter.pack_loop _ _) as [buf|e'] eqn:Hp;
      cbn [mbind result_bind] in He.
    + destruct (compress_total now (b64encode buf)) as [code Hc]. congruence.
    + injection He as <-. eapply pack_loop_raises, Hp.
  - destruct Hstd as [code Hc]. congruence.
Qed.

(** ** Bit fields *)

Section BitFields.
Import FormationDeckCode.

Lemma msb_fold (bits : list bool) (acc : Z) :
  fold_left (fun acc (b : bool) => acc * 2 + (if b then 1 else 0)) bits acc
  = acc * 2 ^ Z.of_nat (length bits) + msb_value bits.
Proof.
  unfold msb_value. revert acc. induction bits as [|b bits IH]; intros acc.
  - cbn. lia.
  - cbn [fold_left length]. rewrite IH, (IH (0 * 2 + _)).
    rewrite Nat2Z.inj_succ, Z.pow_succ_r by lia. lia.
Qed.

Lemma msb_value_cons (b : bool) (bits : list bool) :
  msb_value (b :: bits)
  = (if b then 1 else 0) * 2 ^ Z.of_nat (length bits) + msb_value bits.
Proof. unfold msb_value at 1. cbn [fold_left]. now rewrite msb_fold. Qed.

Lemma read_bits_general (bools : list bool) (count : nat) (value : Z) (i : nat) :
  read_bits bools count value i
  = (value * 2 ^ Z.of_nat (Nat.min count (length bools - i))
     + msb_value (take (Nat.min count (length bools - i)) (drop i bools)),
     (i + Nat.min count (length bools - i))%nat).
Proof.
  revert value i. induction count as [|count IH]; intros value i.
  - cbn [read_bits]. rewrite Nat.min_0_l, take_0. unfold msb_value.
    cbn [fold_left Z.of_nat]. rewrite Z.pow_0_r. f_equal; lia.
  - cbn [read_bits]. destruct (Nat.ltb_spec i (length bools)) as [Hlt|Hge].
    + rewrite IH, lor_double_bit.
      replace (Nat.min (S count) (length bools - i))
        with (S (Nat.min count (length bools - S i))) by lia.
      assert (bools !! i = Some (nth i bools false)) as Hi
        by (destruct (nth_lookup_or_length bools i false); [assumption | lia]).
      rewrite (drop_S _ _ _ Hi). cbn [firstn]. rewrite msb_value_cons.
      rewrite length_take, length_drop.
      replace (Nat.min (Nat.min count (length bools - S i)) (length bools - S i))
        with (Nat.min count (length bools - S i)) by lia.
      rewrite Nat2Z.inj_succ, Z.pow_succ_r by lia.
      f_equal; lia.
    + rewrite IH.
      replace (Nat.min count (length bools - i)) with 0%nat by lia.
      replace (Nat.min (S count) (length bools - i)) with 0%nat by lia.
      reflexivity.
Qed.

Lemma msb_value_int_to_bools (value : Z) (bit_count : nat) :
  msb_value (int_to_bools value bit_count) = value mod 2 ^ Z.of_nat bit_count.
Proof.
  induction bit_count as [|k IH].
  - cbn. now rewrite Z.mod_1_r.
  - rewrite int_to_bools_succ, msb_value_cons, length_int_to_bools, IH.
    now rewrite mod_pow2_succ.
Qed.

End BitFields.

(** X12.  The bit-reading loop of [decode] consumes the bits that are
    there, at most [count] of them, most significant first, and stops at the
    end of the list: a missing bit neither shifts the accumulator nor moves
    the cursor. *)
Theorem read_bits_reads_available (bools : list bool) (count : nat) (value : Z)
    (bit_index : nat) :
  let m := Nat.min count (length bools - bit_index) in
  FormationDeckCode.read_bits bools count value bit_index
  = (value * 2 ^ Z.of_nat m + msb_value (take m (drop bit_index bools)),
     (bit_index + m)%nat).
Proof. apply read_bits_general. Qed.

(** X13.  [_int_to_bools] returns [bit_count] bits that spell, most
    significant bit first, the value reduced modulo [2 ^ bit_count]; a value
    that does not fit, or a negative one, is cut to its low bits. *)
Theorem int_to_bools_low_bits (value : Z) (bit_count : nat) :
  length (FormationDeckCode.int_to_bools value bit_count) = bit_count
  /\ msb_value (FormationDeckCode.int_to_bools value bit_count)
     = value mod 2 ^ Z.of_nat bit_count.
Proof. split; [apply length_int_to_bools | apply msb_value_int_to_bools]. Qed.

(** ** The formations [decode] returns *)

Section DecodeShape.
Import FormationDeckCode.

Lemma rebuild_decoded_id (base n m : Z) : mod7 m -> decoded_id base n (rebuild base n m).
Proof.
  unfold mod7, decoded_id, rebuild. intros Hm.
  destruct (Z.ltb_spec 0 m); [right; exists m; lia | now left].
Qed.

Lemma rebuild_nonzero (base n m : Z) :
  0 <= base -> 0 <= n -> rebuild base n m <> 0 <-> 0 < m.
Proof.
  intros Hb Hn. unfold rebuild. destruct (Z.ltb_spec 0 m); lia.
Qed.

Lemma emitted_well_formed (n p t e1 e2 e3 e4 e5 : Z) :
  1 <= n <= 12 -> mod7 p -> 0 <= t <= 15 ->
  mod7 e1 -> mod7 e2 -> mod7 e3 -> mod7 e4 -> mod7 e5 ->
  Forall well_formed_output (emitted n (p, t, [e1; e2; e3; e4; e5])).
Proof.
  intros Hn Hp Ht H1 H2 H3 H4 H5. unfold emitted.
  destruct ((0 <? p) || any _) eqn:Hcond; [| constructor].
  constructor; [| constructor]. unfold well_formed_output. cbn [slot personality_id
    ego1 ego2 ego3 ego4 ego5 enabled slot_type map nth].
  repeat (split; [first [lia | reflexivity | now apply rebuild_decoded_id] |]).
  unfold nonempty_slot. cbn [personality_id ego1 ego2 ego3 ego4 ego5].
  unfold any in Hcond. cbn [map existsb] in Hcond.
  destruct (Z.ltb_spec 0 p) as [Hpos|_].
  - left. apply rebuild_nonzero; lia.
  - cbn [orb] in Hcond. right.
    destruct (Z.eqb_spec (rebuild 20000 n e1) 0); [| now left].
    destruct (Z.eqb_spec (rebuild 20000 n e2) 0); [| now right; left].
    destruct (Z.eqb_spec (rebuild 20000 n e3) 0); [| now right; right; left].
    destruct (Z.eqb_spec (rebuild 20000 n e4) 0); [| now right; right; right; left].
    destruct (Z.eqb_spec (rebuild 20000 n e5) 0); [discriminate |].
    now right; right; right; right.
Qed.

Lemma length_emitted (n : Z) (fields : Z * Z * list Z) :
  (length (emitted n fields) <= 1)%nat.
Proof.
  unfold emitted. destruct fields as [[p t] ems].
  destruct ((0 <? p) || any _); cbn; lia.
Qed.

Lemma length_flat_map_le {A B} (g : A -> list B) (l : list A) :
  (forall x, (length (g x) <= 1)%nat) -> (length (flat_map g l) <= length l)%nat.
Proof.
  intros Hg. induction l as [|x l IH]; [reflexivity |].
  cbn [flat_map length]. rewrite length_app. specialize (Hg x). lia.
Qed.

End DecodeShape.

(** X14.  Whatever the input, [decode] returns at most twelve formations,
    and each has a slot number in 1..12, [enabled] equal to [slot_type > 0],
    a slot type in 0..15, IDs that are 0 or a non-zero 7-bit modulus above
    the slot's base ([10000 + slot * 100] or [20000 + slot * 100]), and at
    least one non-zero ID. *)
Theorem decode_output_well_formed `{C : Codecs} (encoded : string) (validate : bool) :
  exists out had_errors,
    FormationDeckCode.decode encoded validate = Ok (out, had_errors)
    /\ (length out <= 12)%nat
    /\ Forall well_formed_output out.
Proof.
  rewrite decode_spec, decode_bools_spec.
  cbn [FormationDeckCode.formations FormationDeckCode.had_errors].
  eexists _, _. split; [reflexivity |]. split.
  - change 12%nat with (length (seq 0 12)) at 2.
    apply length_flat_map_le. intros i. apply length_emitted.
  - apply List.Forall_forall. intros f Hin.
    apply in_flat_map in Hin as (i & Hi & Hin). apply in_seq in Hi.
    destruct (wire_fields_spec (wire_bits encoded) i)
      as (p & t & e1 & e2 & e3 & e4 & e5 & Hw & Hp & Ht & H1 & H2 & H3 & H4 & H5).
    rewrite Hw in Hin.
    pose proof (emitted_well_formed (1 + Z.of_nat i) p t e1 e2 e3 e4 e5
                  ltac:(lia) Hp Ht H1 H2 H3 H4 H5) as Hall.
    rewrite List.Forall_forall in Hall. now apply Hall.
Qed.

(** ** Short payloads *)

Section ShortPayload.
Import FormationDeckCode.

Lemma read_bits_cursor (bools : list bool) (count : nat) (value : Z) (i : nat) :
  snd (read_bits bools count value i) = (i + Nat.min count (length bools - i))%nat.
Proof. now rewrite read_bits_general. Qed.

Lemma read_bits_exhausted (bools : list bool) (count : nat) (value : Z) (i : nat) :
  (length bools <= i)%nat -> read_bits bools count value i = (value, i).
Proof.
  intros Hi. rewrite read_bits_general.
  replace (Nat.min count (length bools - i)) with 0%nat by lia.
  rewrite take_0. unfold msb_value. cbn [fold_left Z.of_nat].
  rewrite Z.pow_0_r. f_equal; lia.
Qed.

Lemma read_slot_exhausted (bools : list bool) (i : nat) :
  (length bools <= i)%nat -> read_slot bools i = (0, 0, [0; 0; 0; 0; 0], i).
Proof.
  intros Hi. unfold read_slot. cbn [read_egos].
  now rewrite !read_bits_exhausted by assumption.
Qed.

Lemma read_egos_cursor (bools : list bool) (n : nat) (acc : list Z) (i : nat) :
  (Nat.min (i + 7 * n) (length bools) <= snd (read_egos bools n acc i))%nat.
Proof.
  revert acc i. induction n as [|n IH]; intros acc i; cbn [read_egos snd]; [lia |].
  pose proof (read_bits_cursor bools 7 0 i) as Hc.
  destruct (read_bits bools 7 0 i) as [ego_mod i']. cbn [snd] in Hc.
  specialize (IH (acc ++ [ego_mod]) i'). lia.
Qed.

Lemma read_slot_cursor (bools : list bool) (i : nat) :
  (Nat.min (i + 46) (length bools) <= snd (read_slot bools i))%nat.
Proof.
  unfold read_slot.
  pose proof (read_bits_cursor bools 7 0 i) as H1.
  destruct (read_bits bools 7 0 i) as [p i1]. cbn [snd] in H1.
  pose proof (read_bits_cursor bools 4 0 i1) as H2.
  destruct (read_bits bools 4 0 i1) as [t i2]. cbn [snd] in H2.
  pose proof (read_egos_cursor bools 5 [] i2) as H3.
  destruct (read_egos bools 5 [] i2) as [ems i3]. cbn [snd] in *. lia.
Qed.

Lemma cursor_lower_bound (bools : list bool) (k : nat) :
  (Nat.min (1 + 46 * k) (length bools) <= cursor bools k)%nat.
Proof.
  induction k as [|k IH]; cbn [cursor]; [lia |].
  pose proof (read_slot_cursor bools (cursor bools k)). lia.
Qed.

Lemma wire_fields_exhausted (bools : list bool) (k j : nat) :
  (length bools <= 1 + 46 * k)%nat -> (k <= j)%nat ->
  wire_fields bools j = (0, 0, [0; 0; 0; 0; 0]).
Proof.
  intros Hlen Hj. unfold wire_fields.
  rewrite read_slot_exhausted; [reflexivity |].
  pose proof (cursor_lower_bound bools j). lia.
Qed.

End ShortPayload.

(** X15.  A bit list that ends within the first [k] slot records, that is
    of at most [1 + 46 * k] bits, decodes without error to formations of the
    slots 1..k only: the slots whose bits are missing are read as empty. *)
Theorem short_payload_decodes_prefix (validate : bool) (bools : list bool) (k : nat) :
  (length bools <= 1 + 46 * k)%nat ->
  FormationDeckCode.had_errors (FormationDeckCode.decode_bools validate bools) = false
  /\ Forall (fun f => 1 <= slot f <= Z.of_nat k)
            (FormationDeckCode.formations (FormationDeckCode.decode_bools validate bools)).
Proof.
  intros Hlen. rewrite decode_bools_spec.
  cbn [FormationDeckCode.formations FormationDeckCode.had_errors].
  split; [reflexivity |].
  apply List.Forall_forall. intros f Hin.
  apply in_flat_map in Hin as (i & Hi & Hin). apply in_seq in Hi.
  destruct (Nat.lt_ge_cases i k) as [Hlt|Hge].
  - apply emitted_slot in Hin. lia.
  - rewrite (wire_fields_exhausted bools k i Hlen Hge) in Hin. destruct Hin.
Qed.

Lemma short_payload_decodes_prefix_witness :
  FormationDeckCode.had_errors
    (FormationDeckCode.decode_bools true
       (take 50 (FormationDeckCode.all_bits [Samples.third_slot; Samples.sample_formation])))
  = false
  /\ Forall (fun f => 1 <= slot f <= Z.of_nat 2)
       (FormationDeckCode.formations
          (FormationDeckCode.decode_bools true
             (take 50 (FormationDeckCode.all_bits
                         [Samples.third_slot; Samples.sample_formation])))).
Proof.
  apply short_payload_decodes_prefix.
  rewrite length_take. lia.
Defined.

(** ** Values that do not fit their field *)

Section FieldWidth.
Import FormationDeckCode.

Lemma emitted_any_slot_type (f : FormationDetailInfo) :
  1 <= slot f <= 12 -> valid_id 10000 (slot f) (personality_id f) -> valid_egos f ->
  emitted (slot f)
    (on_wire (modifier (personality_id f), slot_type f,
              map modifier [ego1 f; ego2 f; ego3 f; ego4 f; ego5 f]))
  = if negb (personality_id f =? 0) || any [ego1 f; ego2 f; ego3 f; ego4 f; ego5 f]
    then [ {| slot := slot f; personality_id := personality_id f;
              ego1 := ego1 f; ego2 := ego2 f; ego3 := ego3 f;
              ego4 := ego4 f; ego5 := ego5 f;
              enabled := 0 <? slot_type f mod 16;
              slot_type := slot_type f mod 16 |} ]
    else [].
Proof.
  intros Hn Hp (H1 & H2 & H3 & H4 & H5).
  unfold emitted, on_wire. cbn [map].
  destruct (rebuild_modifier 20000 (slot f) (ego1 f) ltac:(lia) ltac:(lia) eq_refl H1)
    as [-> _].
  destruct (rebuild_modifier 20000 (slot f) (ego2 f) ltac:(lia) ltac:(lia) eq_refl H2)
    as [-> _].
  destruct (rebuild_modifier 20000 (slot f) (ego3 f) ltac:(lia) ltac:(lia) eq_refl H3)
    as [-> _].
  destruct (rebuild_modifier 20000 (slot f) (ego4 f) ltac:(lia) ltac:(lia) eq_refl H4)
    as [-> _].
  destruct (rebuild_modifier 20000 (slot f) (ego5 f) ltac:(lia) ltac:(lia) eq_refl H5)
    as [-> _].
  destruct (rebuild_modifier 10000 (slot f) (personality_id f)
              ltac:(lia) ltac:(lia) eq_refl Hp) as [-> ->].
  reflexivity.
Qed.

End FieldWidth.

(** X16.  The slot type is carried in four bits: a formation with valid IDs,
    one of them non-zero, in a slot 1..12 comes back from the standard round
    trip with its slot type reduced modulo 16 and [enabled] derived from the
    reduced value, whatever integer the slot type was. *)
Theorem slot_type_wraps_modulo_16 `{C : Codecs} `{!CodecLaws C}
    (now : Z) (f : FormationDetailInfo) (validate : bool) :
  1 <= slot f <= 12 ->
  valid_id 10000 (slot f) (personality_id f) ->
  valid_egos f ->
  nonempty_slot f ->
  exists code,
    FormationDeckCode.encode now [f] false = Ok code
    /\ FormationDeckCode.decode code validate
       = Ok ([ {| slot := slot f; personality_id := personality_id f;
                  ego1 := ego1 f; ego2 := ego2 f; ego3 := ego3 f;
                  ego4 := ego4 f; ego5 := ego5 f;
                  enabled := 0 <? slot_type f mod 16;
                  slot_type := slot_type f mod 16 |} ], false).
Proof.
  intros Hslot Hp He Hnz.
  assert ([f] <> []) as Hne by discriminate.
  destruct (encode_standard now [f] Hne) as (code & Henc & _ & _).
  exists code. split; [exact Henc |].
  rewrite (decode_encode now [f] code validate Hne Henc). do 2 f_equal.
  rewrite (flat_map_single _ _ (Z.to_nat (slot f - 1))).
  - replace (1 + Z.of_nat (Z.to_nat (slot f - 1))) with (slot f) by lia.
    unfold slot_values.
    rewrite formation_map_lookup, last_with_slot_singleton, Z.eqb_refl.
    rewrite emitted_any_slot_type by assumption.
    apply nonempty_slot_bool in Hnz. rewrite Hnz. reflexivity.
  - apply NoDup_ListNoDup, List.seq_NoDup.
  - apply in_seq. lia.
  - intros y Hy Hne'. apply in_seq in Hy.
    unfold slot_values.
    rewrite formation_map_lookup, last_with_slot_singleton.
    destruct (Z.eqb_spec (slot f) (1 + Z.of_nat y)); [lia | apply emitted_zeros].
Qed.

Lemma slot_type_wraps_modulo_16_witness :
  exists code,
    FormationDeckCode.encode (H := Reference.codecs) 1700000000
      [Samples.slot_type_16] false = Ok code
    /\ FormationDeckCode.decode (H := Reference.codecs) code true
       = Ok ([ {| slot := 1; personality_id := 10101;
                  ego1 := 20101; ego2 := 20102; ego3 := 20103; ego4 := 0; ego5 := 0;
                  enabled := 0 <? 16 mod 16; slot_type := 16 mod 16 |} ], false).
Proof.
  apply (slot_type_wraps_modulo_16 (C := Reference.codecs) 1700000000
           Samples.slot_type_16 true).
  - cbn; lia.
  - solve_valid_id.
  - unfold valid_egos; repeat split; solve_valid_id.
  - left. discriminate.
Defined.

(** ** Order of the input list *)

Section InputOrder.
Import FormationDeckCode.

Lemma last_with_slot_permutation (fs fs' : list FormationDetailInfo) (n : Z) :
  NoDup (map slot fs) -> Permutation fs fs' ->
  last_with_slot n fs = last_with_slot n fs'.
Proof.
  intros Hnd Hperm.
  assert (NoDup (map slot fs')) as Hnd'.
  { apply NoDup_ListNoDup. eapply Permutation_NoDup; [apply Permutation_map, Hperm |].
    now apply NoDup_ListNoDup. }
  destruct (last_with_slot n fs) as [f|] eqn:Hl.
  - apply last_with_slot_Some in Hl as [Hin <-].
    symmetry. apply last_with_slot_unique; [assumption |].
    eapply Permutation_in; eassumption.
  - destruct (last_with_slot n fs') as [g|] eqn:Hl'; [| reflexivity].
    apply last_with_slot_Some in Hl' as [Hin <-].
    rewrite last_with_slot_unique in Hl; [discriminate | assumption |].
    eapply Permutation_in; [symmetry; eassumption | assumption].
Qed.

End InputOrder.

(** X17.  For a list with distinct slot numbers the standard path does not
    depend on the order of the list: every permutation gives the same
    bitstream and the same base-64 text of it, and the codes of two
    permutations, which may differ in the time the compressed stream holds,
    decode to the same result. *)
Theorem standard_encode_order_independent `{C : Codecs} `{!CodecLaws C}
    (fs fs' : list FormationDetailInfo) :
  NoDup (map slot fs) ->
  Permutation fs fs' ->
  FormationDeckCode.all_bits fs = FormationDeckCode.all_bits fs'
  /\ BoolListBase64Converter.to_base64 (FormationDeckCode.all_bits fs)
     = BoolListBase64Converter.to_base64 (FormationDeckCode.all_bits fs')
  /\ (forall now now' code code' validate,
        FormationDeckCode.encode now fs false = Ok code ->
        FormationDeckCode.encode now' fs' false = Ok code' ->
        FormationDeckCode.decode code validate
        = FormationDeckCode.decode code' validate).
Proof.
  intros Hnd Hperm.
  assert (FormationDeckCode.all_bits fs = FormationDeckCode.all_bits fs') as Hbits.
  { apply all_bits_ext. intros n _. now apply last_with_slot_permutation. }
  split; [exact Hbits |]. split; [now rewrite Hbits |].
  intros now now' code code' validate Hc Hc'.
  destruct fs as [|f fs].
  - apply Permutation_nil in Hperm. subst fs'. cbn in Hc, Hc'. congruence.
  - assert (fs' <> []) as Hne'.
    { intros ->. symmetry in Hperm. apply Permutation_nil in Hperm. discriminate. }
    rewrite (decode_encode now (f :: fs) code validate ltac:(discriminate) Hc).
    rewrite (decode_encode now' fs' code' validate Hne' Hc').
    do 2 f_equal. apply flat_map_ext. intros i. unfold slot_values.
    rewrite !formation_map_lookup.
    now rewrite (last_with_slot_permutation (f :: fs) fs').
Qed.

Lemma standard_encode_order_independent_witness :
  exists code code',
    FormationDeckCode.encode (H := Reference.codecs) 1700000000
      [Samples.third_slot; Samples.sample_formation] false = Ok code
    /\ FormationDeckCode.encode (H := Reference.codecs) 1700000060
         [Samples.sample_formation; Samples.third_slot] false = Ok code'
    /\ code <> code'
    /\ FormationDeckCode.decode (H := Reference.codecs) code true
       = FormationDeckCode.decode (H := Reference.codecs) code' true.
Proof.
  eexists _, _.
  split; [vm_compute; reflexivity |].
  split; [vm_compute; reflexivity |].
  split; [discriminate |].
  apply (standard_encode_order_independent (C := Reference.codecs)
           [Samples.third_slot; Samples.sample_formation]
           [Samples.sample_formation; Samples.third_slot])
    with (now := 1700000000) (now' := 1700000060).
  - cbn. repeat constructor; rewrite ?list_elem_of_In; cbn; lia.
  - apply perm_swap.
  - vm_compute. reflexivity.
  - vm_compute. reflexivity.
Defined.

(** ** The validation block *)

Section Validation.
Import FormationDeckCode.

Lemma validate_egos_fold (done rest : list Z) (had_errors : bool) :
  fold_left
    (fun '(egos, had_errors) i =>
       let ego_id := nth i egos 0 in
       if (0 <? ego_id) && ((ego_id <? 20000) || (99999 <? ego_id))
       then (<[i := 0]> egos, true)
       else (egos, had_errors))
    (seq (length done) (length rest)) (done ++ rest, had_errors)
  = (done ++ map (fun e => if bad_id 20000 e then 0 else e) rest,
     had_errors || existsb (bad_id 20000) rest).
Proof.
  revert done had_errors. induction rest as [|e rest IH]; intros done had_errors.
  - cbn. now rewrite orb_false_r.
  - cbn [length seq fold_left map existsb].
    rewrite app_nth2, Nat.sub_diag by lia. cbn [nth].
    fold (bad_id 20000 e).
    destruct (bad_id 20000 e).
    + rewrite insert_app_r_alt, Nat.sub_diag by lia. cbn [insert list_insert].
      replace (done ++ 0 :: rest) with ((done ++ [0]) ++ rest) by now rewrite <- app_assoc.
      replace (S (length done)) with (length (done ++ [0]))
        by (rewrite length_app; cbn; lia).
      rewrite IH, <- app_assoc. cbn [app orb]. now rewrite orb_true_r.
    + replace (done ++ e :: rest) with ((done ++ [e]) ++ rest) by now rewrite <- app_assoc.
      replace (S (length done)) with (length (done ++ [e]))
        by (rewrite length_app; cbn; lia).
      rewrite IH, <- app_assoc. reflexivity.
Qed.

Lemma validate_egos_map (egos : list Z) (had_errors : bool) :
  validate_egos egos had_errors
  = (map (fun e => if bad_id 20000 e then 0 else e) egos,
     had_errors || existsb (bad_id 20000) egos).
Proof. apply (validate_egos_fold [] egos had_errors). Qed.

Lemma validation_map (personality_id : Z) (egos : list Z) (slot_type : Z)
    (had_errors : bool) :
  validation personality_id egos slot_type had_errors
  = (if bad_id 10000 personality_id then 0 else personality_id,
     map (fun e => if bad_id 20000 e then 0 else e) egos,
     if bad_slot_type slot_type then 0 else slot_type,
     had_errors || bad_id 10000 personality_id || existsb (bad_id 20000) egos
     || bad_slot_type slot_type).
Proof.
  unfold validation. fold (bad_id 10000 personality_id). fold (bad_slot_type slot_type).
  destruct (bad_id 10000 personality_id); rewrite validate_egos_map;
    destruct (bad_slot_type slot_type); rewrite ?orb_true_r, ?orb_false_r;
    try reflexivity.
  all: now destruct had_errors.
Qed.

Lemma bad_id_reset (low id : Z) : bad_id low (if bad_id low id then 0 else id) = false.
Proof. destruct (bad_id low id) eqn:Hb; [reflexivity | exact Hb]. Qed.

Lemma bad_slot_type_reset (t : Z) :
  bad_slot_type (if bad_slot_type t then 0 else t) = false.
Proof. destruct (bad_slot_type t) eqn:Hb; [reflexivity | exact Hb]. Qed.

Lemma existsb_bad_id_reset (low : Z) (egos : list Z) :
  existsb (bad_id low) (map (fun e => if bad_id low e then 0 else e) egos) = false.
Proof.
  induction egos as [|e egos IH]; [reflexivity |].
  cbn [map existsb]. now rewrite bad_id_reset, IH.
Qed.

Lemma map_bad_id_reset (low : Z) (egos : list Z) :
  map (fun e => if bad_id low e then 0 else e)
      (map (fun e => if bad_id low e then 0 else e) egos)
  = map (fun e => if bad_id low e then 0 else e) egos.
Proof.
  rewrite map_map. apply map_ext. intros e. now rewrite bad_id_reset.
Qed.

End Validation.

(** X18.  The validation block resets to 0 exactly the fields that fail
    their range test (a positive personality ID outside [10000, 99999], a
    positive equipment ID outside [20000, 99999], a slot type outside
    [0, 15]), leaves the others as they are, and sets the error flag when it
    resets a field; run again on its own output it changes nothing and
    reports nothing. *)
Theorem validation_resets_out_of_range (personality_id : Z) (egos : list Z)
    (slot_type : Z) (had_errors : bool) :
  let personality_id' := if bad_id 10000 personality_id then 0 else personality_id in
  let egos' := map (fun e => if bad_id 20000 e then 0 else e) egos in
  let slot_type' := if bad_slot_type slot_type then 0 else slot_type in
  FormationDeckCode.validation personality_id egos slot_type had_errors
  = (personality_id', egos', slot_type',
     had_errors || bad_id 10000 personality_id || existsb (bad_id 20000) egos
     || bad_slot_type slot_type)
  /\ FormationDeckCode.validation personality_id' egos' slot_type' false
     = (personality_id', egos', slot_type', false).
Proof.
  cbv zeta. split; [apply validation_map |].
  rewrite validation_map, bad_id_reset, bad_slot_type_reset, existsb_bad_id_reset,
    map_bad_id_reset.
  reflexivity.
Qed.

(** ** The wire layout, read from the decoder *)

Section WireLayout.
Import FormationDeckCode.

Lemma read_bits_full (bools : list bool) (count i : nat) :
  (i + count <= length bools)%nat ->
  read_bits bools count 0 i = (msb_value (slice i count bools), (i + count)%nat).
Proof.
  intros Hlen. rewrite read_bits_general.
  replace (Nat.min count (length bools - i)) with count by lia.
  unfold slice. f_equal; lia.
Qed.

Lemma read_slot_full (bools : list bool) (i : nat) :
  (i + 46 <= length bools)%nat ->
  read_slot bools i
  = (msb_value (slice i 7 bools), msb_value (slice (i + 7) 4 bools),
     map (fun j => msb_value (slice (i + 11 + 7 * j) 7 bools)) (seq 0 5),
     (i + 46)%nat).
Proof.
  intros Hlen. unfold read_slot. cbn [read_egos seq map].
  rewrite !read_bits_full by lia. cbn [app].
  repeat (f_equal; try lia).
Qed.

Lemma cursor_full (bools : list bool) (k : nat) :
  (1 + 46 * k <= length bools)%nat -> cursor bools k = (1 + 46 * k)%nat.
Proof.
  induction k as [|k IH]; intros Hlen; [reflexivity |].
  cbn [cursor]. rewrite IH by lia. rewrite read_slot_full by lia. cbn [snd]. lia.
Qed.

End WireLayout.

(** X19.  When the bit list holds the records of the first [k] slots, that
    is at least [1 + 46 * k] bits, the slot loop of [decode] reads the record
    of slot [i + 1] at bit [1 + 46 * i]: seven bits of personality modulus,
    four bits of slot type and five equipment moduli of seven bits each,
    every field most significant bit first.  The formations of these slots
    come first in the result, built from those fields alone, so bit 0 plays
    no part in them; what follows belongs to the later slots, and no error
    is flagged. *)
Theorem decode_reads_slot_record (validate : bool) (bools : list bool) (k : nat) :
  (k <= 12)%nat ->
  (1 + 46 * k <= length bools)%nat ->
  exists rest,
    FormationDeckCode.formations (FormationDeckCode.decode_bools validate bools)
    = flat_map
        (fun i =>
           let start := (1 + 46 * i)%nat in
           emitted (1 + Z.of_nat i)
             (msb_value (slice start 7 bools),
              msb_value (slice (start + 7) 4 bools),
              map (fun j => msb_value (slice (start + 11 + 7 * j) 7 bools)) (seq 0 5)))
        (seq 0 k)
      ++ rest
    /\ Forall (fun f => Z.of_nat k < slot f <= 12) rest
    /\ FormationDeckCode.had_errors (FormationDeckCode.decode_bools validate bools)
       = false.
Proof.
  intros Hk Hlen. rewrite decode_bools_spec.
  cbn [FormationDeckCode.formations FormationDeckCode.had_errors].
  exists (flat_map (fun i => emitted (1 + Z.of_nat i) (wire_fields bools i))
                   (seq k (12 - k))).
  split; [| split; [| reflexivity]].
  - replace (seq 0 12) with (seq 0 k ++ seq k (12 - k))
      by (change k with (0 + k)%nat at 2; rewrite <- seq_app; f_equal; lia).
    rewrite flat_map_app. f_equal.
    rewrite !flat_map_concat_map. f_equal. apply map_ext_in.
    intros i Hi. apply in_seq in Hi. cbv zeta. f_equal.
    unfold wire_fields. rewrite cursor_full by lia. now rewrite read_slot_full by lia.
  - apply List.Forall_forall. intros f Hin.
    apply in_flat_map in Hin as (i & Hi & Hin). apply in_seq in Hi.
    apply emitted_slot in Hin. lia.
Qed.

Lemma decode_reads_slot_record_witness :
  exists rest,
    FormationDeckCode.formations
      (FormationDeckCode.decode_bools true
         (FormationDeckCode.all_bits [Samples.third_slot; Samples.sample_formation]))
    = flat_map
        (fun i =>
           let start := (1 + 46 * i)%nat in
           let bools :=
             FormationDeckCode.all_bits [Samples.third_slot; Samples.sample_formation] in
           emitted (1 + Z.of_nat i)
             (msb_value (slice start 7 bools),
              msb_value (slice (start + 7) 4 bools),
              map (fun j => msb_value (slice (start + 11 + 7 * j) 7 bools)) (seq 0 5)))
        (seq 0 12)
      ++ rest
    /\ Forall (fun f => Z.of_nat 12 < slot f <= 12) rest
    /\ FormationDeckCode.had_errors
         (FormationDeckCode.decode_bools true
            (FormationDeckCode.all_bits [Samples.third_slot; Samples.sample_formation]))
       = false.
Proof.
  apply (decode_reads_slot_record true
           (FormationDeckCode.all_bits [Samples.third_slot; Samples.sample_formation]) 12).
  - lia.
  - rewrite length_all_bits. lia.
Defined.
